(** * score_feed_parser: a shallow embedding of the score-feed parser

    The Python module [score_feed_parser.py] turns the rows exported from a
    Discord "scores-feed" channel into structured score records.  This file
    models the parsing functions of that module and proves (or refutes) the
    properties its specification states about them.

    Modelling choices.
    - A Python [str] is a sequence of Unicode code points: [str := list N].
      The alias table of the module contains characters outside ASCII and
      [str.split()] splits on every Unicode white-space character, so the
      model works on code points and not on bytes.
    - Python values that end up in a heterogeneous list ([int], [str],
      [None], nested lists) are the inductive type [value].
    - Exceptions, the module-level dictionary [platforms] and the calls to
      the logger are effects: a computation is a function from the [world]
      (alias table and logger journal) to an [outcome] and a new world. *)

From Stdlib Require Import String Ascii.
From Stdlib Require Import List NArith ZArith Bool Lia.
Import ListNotations.

(** ** Strings as sequences of code points *)

Definition char := N.
Definition str := list char.

Definition ch (a : ascii) : char := N_of_ascii a.
Arguments ch a%_char.

(** [lit "abc"] is the Python literal ["abc"] (ASCII literals only; the
    non-ASCII literals of the module are given by their code points). *)
Definition lit (s : string) : str := map N_of_ascii (list_ascii_of_string s).
Arguments lit s%_string.

Fixpoint str_eqb (a b : str) : bool :=
  match a, b with
  | [], [] => true
  | x :: a', y :: b' => N.eqb x y && str_eqb a' b'
  | _, _ => false
  end.

(** [str.isspace] on one code point, the table of CPython's
    [_PyUnicode_IsWhitespace]. *)
Definition isspace (c : char) : bool :=
  ((0x09 <=? c) && (c <=? 0x0D) || (0x1C <=? c) && (c <=? 0x20)
   || (c =? 0x85) || (c =? 0xA0) || (c =? 0x1680)
   || (0x2000 <=? c) && (c <=? 0x200A)
   || (c =? 0x2028) || (c =? 0x2029) || (c =? 0x202F) || (c =? 0x205F)
   || (c =? 0x3000))%N.

Definition push_word (w : str) (ws : list str) : list str :=
  match w with
  | [] => ws
  | _ :: _ => w :: ws
  end.

(** [split_ws_aux s] scans [s] and yields the word that is open at the
    start of [s] together with the words after it. *)
Fixpoint split_ws_aux (s : str) : str * list str :=
  match s with
  | [] => ([], [])
  | c :: s' =>
      let (w, ws) := split_ws_aux s' in
      if isspace c then ([], push_word w ws) else (c :: w, ws)
  end.

(** [s.split()]: the maximal runs of characters that are not white space. *)
Definition split_ws (s : str) : list str :=
  let (w, ws) := split_ws_aux s in push_word w ws.

(** [split_sep_aux sep s]: first field and remaining fields of
    [s.split(sep)] for a one-character separator. *)
Fixpoint split_sep_aux (sep : char) (s : str) : str * list str :=
  match s with
  | [] => ([], [])
  | c :: s' =>
      let (w, ws) := split_sep_aux sep s' in
      if N.eqb c sep then ([], w :: ws) else (c :: w, ws)
  end.

(** [s.split(sep)] for a one-character separator: never empty, and the
    empty fields are kept. *)
Definition split_sep (sep : char) (s : str) : list str :=
  let (w, ws) := split_sep_aux sep s in w :: ws.

Fixpoint starts_with (p s : str) : bool :=
  match p, s with
  | [], _ => true
  | a :: p', b :: s' => N.eqb a b && starts_with p' s'
  | _ :: _, [] => false
  end.

(** [sub in s] for strings. *)
Fixpoint contains (sub s : str) : bool :=
  starts_with sub s ||
  match s with
  | [] => false
  | _ :: s' => contains sub s'
  end.

(** [x in l] for a list of strings. *)
Definition in_list (x : str) (l : list str) : bool := existsb (str_eqb x) l.

(** [sep.join(l)]. *)
Fixpoint join (sep : str) (l : list str) : str :=
  match l with
  | [] => []
  | x :: rest =>
      match rest with
      | [] => x
      | _ :: _ => x ++ sep ++ join sep rest
      end
  end.

(** Iterating over a string yields its one-character strings. *)
Definition chars (s : str) : list str := map (fun c => [c]) s.

Definition count_char (c : char) (s : str) : nat :=
  length (filter (N.eqb c) s).

(** ** Python indexing and slicing *)

(** Position in a sequence of length [n] designated by the index [i];
    negative indices count from the end. *)
Definition norm_index (n : nat) (i : Z) : option nat :=
  let j := if (i <? 0)%Z then (i + Z.of_nat n)%Z else i in
  if ((0 <=? j) && (j <? Z.of_nat n))%Z then Some (Z.to_nat j) else None.

(** Bound of a slice: clamped into [0..n]. *)
Definition clamp (n : nat) (i : Z) : nat :=
  if (i <? 0)%Z then Z.to_nat (Z.max 0 (i + Z.of_nat n))
  else Nat.min (Z.to_nat i) n.

(** [l[lo:hi]], an omitted bound being [None]. *)
Definition slice {A : Type} (l : list A) (lo hi : option Z) : list A :=
  let n := length l in
  let a := match lo with Some i => clamp n i | None => 0 end in
  let b := match hi with Some i => clamp n i | None => n end in
  firstn (b - a) (skipn a l).

Fixpoint find_index (x : str) (l : list str) : option nat :=
  match l with
  | [] => None
  | y :: l' =>
      if str_eqb y x then Some 0
      else match find_index x l' with
           | Some i => Some (S i)
           | None => None
           end
  end.

(** [l[i] = v] for an index in range (the module only assigns in range;
    out of range the list is left as it is). *)
Fixpoint set_nth {A : Type} (l : list A) (i : nat) (v : A) : list A :=
  match l, i with
  | [], _ => []
  | _ :: l', O => v :: l'
  | x :: l', S i' => x :: set_nth l' i' v
  end.

(** ** Values, exceptions, the logger and the world *)

#[warnings="-register-all"]
Inductive value : Type :=
| VNone
| VInt (n : Z)
| VStr (s : str)
| VList (l : list value).

(** [a == b] on the values above. *)
Fixpoint value_eqb (a b : value) : bool :=
  match a, b with
  | VNone, VNone => true
  | VInt m, VInt n => Z.eqb m n
  | VStr s, VStr t => str_eqb s t
  | VList l, VList k =>
      (fix go (l k : list value) : bool :=
         match l, k with
         | [], [] => true
         | x :: l', y :: k' => value_eqb x y && go l' k'
         | _, _ => false
         end) l k
  | _, _ => false
  end.

(** The exception classes the parsing functions can raise.  All of them
    are subclasses of [Exception].  (The specification names the same
    failures by role: [MissingKeywordError] is the [ValueError] of
    [list.index], [MalformedSuffixError] the [ValueError] of a failed
    unpacking, [MalformedUsernameError] the [IndexError] of a missing
    token.) *)
Inductive exn : Type := IndexError | ValueError | UnboundLocalError.

Inductive outcome (A : Type) : Type :=
| Return (a : A)
| Raise (e : exn).
Arguments Return {A} a.
Arguments Raise {A} e.

Inductive level : Type := TRACE | DEBUG | INFO | WARNING.

Inductive message : Type :=
| Fmt (template : string) (args : list value)
| Exc (e : exn).

Record log_record : Type := { lvl : level; msg : message }.

(** The state the module lives in: the module-level dictionary
    [platforms] (an insertion-ordered mapping from a canonical name to its
    aliases) and the journal of the calls made to the logger. *)
Record world : Type := {
  platforms : list (str * list str);
  journal : list log_record
}.

Definition M (A : Type) : Type := world -> outcome A * world.

Definition ret {A : Type} (a : A) : M A := fun w => (Return a, w).

Definition raise {A : Type} (e : exn) : M A := fun w => (Raise e, w).

Definition bind {A B : Type} (m : M A) (f : A -> M B) : M B :=
  fun w =>
    match m w with
    | (Return a, w') => f a w'
    | (Raise e, w') => (Raise e, w')
    end.

(** [try: m  except Exception as e: handler(e)]. *)
Definition try_except {A : Type} (m : M A) (handler : exn -> M A) : M A :=
  fun w =>
    match m w with
    | (Return a, w') => (Return a, w')
    | (Raise e, w') => handler e w'
    end.

Declare Scope monad_scope.
Delimit Scope monad_scope with monad.
Notation "x <- m ;; k" := (bind m (fun x => k))
  (at level 61, m at next level, right associativity) : monad_scope.
Notation "m ;; k" := (bind m (fun _ => k))
  (at level 61, right associativity) : monad_scope.
Open Scope monad_scope.

Definition log (l : level) (m : message) : M unit :=
  fun w => (Return tt,
            {| platforms := platforms w;
               journal := journal w ++ [{| lvl := l; msg := m |}] |}).

Definition logger_trace (template : string) (args : list value) : M unit :=
  log TRACE (Fmt template args).
Definition logger_debug (template : string) (args : list value) : M unit :=
  log DEBUG (Fmt template args).
Definition logger_warning (e : exn) : M unit := log WARNING (Exc e).
Arguments logger_trace template%_string args.
Arguments logger_debug template%_string args.

(** Reading the global [platforms]. *)
Definition get_platforms : M (list (str * list str)) :=
  fun w => (Return (platforms w), w).

(** A step that only computes: the world is left as it is. *)
Definition lift {A : Type} (o : outcome A) : M A := fun w => (o, w).

(** [l[i]]: raises [IndexError] out of range. *)
Definition item {A : Type} (l : list A) (i : Z) : outcome A :=
  match norm_index (length l) i with
  | Some k =>
      match nth_error l k with
      | Some x => Return x
      | None => Raise IndexError
      end
  | None => Raise IndexError
  end.

Definition getitem {A : Type} (l : list A) (i : Z) : M A := lift (item l i).

(** [l.index(x)]: raises [ValueError] when [x] is not in [l]. *)
Definition index_of (l : list str) (x : str) : outcome Z :=
  match find_index x l with
  | Some i => Return (Z.of_nat i)
  | None => Raise ValueError
  end.

Definition list_index (l : list str) (x : str) : M Z := lift (index_of l x).

(** Reading a local variable that may not have been assigned. *)
Definition local {A : Type} (x : option A) : outcome A :=
  match x with
  | Some a => Return a
  | None => Raise UnboundLocalError
  end.

Definition read_local {A : Type} (x : option A) : M A := lift (local x).

(** ** The module *)

(** The dictionary [platforms] as the module defines it.  The second alias
    of [ios] is the one-character string U+F8FF (the private-use Apple
    logo), that of [windows] U+1FA9F, the first of [web] U+1F310 and that of
    [unknown] U+2753. *)
Definition module_platforms : list (str * list str) :=
  [ (lit "android", [lit "Android"; lit ":android:"; lit "<:android:"]);
    (lit "ios", [lit ":ios:"; [0xF8FF%N]]);
    (lit "windows", [[0x1FA9F%N]]);
    (lit "web", [[0x1F310%N]; lit "web"]);
    (lit "unknown", [[0x2753%N]]) ].

Definition initial_world : world :=
  {| platforms := module_platforms; journal := [] |}.

(** [parse_time]. *)
Definition parse_time (time : str) : M (list str) :=
  logger_debug "Parsing time: <w>{}</>" [VStr time] ;;
  ret (split_sep (ch "T") time).

(** The loop of [get_usernames] over the two raw user names. *)
Fixpoint usernames_loop (raws : list str) (usernames : list value)
  : M (list value) :=
  match raws with
  | [] => ret usernames
  | raw_username :: rest =>
      first <- getitem raw_username 0 ;;
      username <-
        (if N.eqb first (ch "`") then
           last <- getitem raw_username (-1) ;;
           if N.eqb last (ch "`")
           then ret (slice raw_username (Some 1%Z) (Some (-1)%Z))
           else ret raw_username
         else ret raw_username) ;;
      usernames_loop rest (usernames ++ [VStr username])
  end.

(** [get_usernames]. *)
Definition get_usernames (content : str) : M (list value) :=
  logger_debug "Getting usernames: <w>{}</>" [VStr content] ;;
  let (era, split_content) :=
    if contains (lit "(era 1)") content
    then (1%Z, slice (split_ws content) (Some 2%Z) None)
    else (2%Z, split_ws content) in
  logger_debug "Got era: <y>{}</>, content: <w>{}</>"
               [VInt era; VList (map VStr split_content)] ;;
  raw0 <- getitem split_content 0 ;;
  raw2 <- getitem split_content 2 ;;
  usernames <- usernames_loop [raw0; raw2] [] ;;
  let mode := 2%Z in
  logger_debug "Got usernames (assuming 2p): <y>{}</>" [VList usernames] ;;
  token1 <- getitem split_content 1 ;;
  let (usernames, mode) :=
    if negb (str_eqb token1 (lit "and"))
    then (set_nth usernames 1 VNone, 1%Z)
    else (usernames, mode) in
  let mode := if contains (lit "(2 players mode)") content then 2%Z else mode in
  logger_debug "Got usernames: <y>{}</>" [VList usernames] ;;
  ret (VInt era :: VInt mode :: usernames).

(** The loop of [get_country_and_platform] over [platforms.items()]:
    [platform_name] is assigned at the first entry whose aliases contain
    [platform], and stays as it was when no entry does. *)
Fixpoint find_platform (items : list (str * list str)) (platform : str)
         (platform_name : option str) : option str :=
  match items with
  | [] => platform_name
  | (name, alias) :: rest =>
      if in_list platform alias then Some name
      else find_platform rest platform platform_name
  end.

(** [get_country_and_platform]. *)
Definition get_country_and_platform (content : str) : M (value * value) :=
  logger_debug "Getting country and platform: <w>{}</>" [VStr content] ;;
  last <- getitem content (-1) ;;
  if negb (N.eqb last (ch ")")) then ret (VNone, VNone)
  else
    data <- getitem (split_sep (ch "(") (slice content None (Some (-1)%Z)))
                    (-1) ;;
    let data := join [] (chars (filter (fun x => negb (N.eqb x (ch " "))) data)) in
    let data := split_sep (ch "-") data in
    if Nat.eqb (length data) 1 then
      country <- getitem data 0 ;;
      ret (VStr country, VNone)
    else
      match data with
      | [country; platform] =>
          logger_debug "Got country: <y>{}</>, platform: <y>{}</>"
                       [VStr country; VStr platform] ;;
          items <- get_platforms ;;
          let platform_name := find_platform items platform None in
          name <- read_local platform_name ;;
          logger_debug "Replaced <y>{}</> with <y>{}</>"
                       [VStr platform; VStr name] ;;
          name <- read_local platform_name ;;
          ret (VStr country, VStr name)
      | _ => raise ValueError
      end.

(** The loop of [get_level] collecting the words of the level name. *)
Fixpoint level_loop (words : list str) (level_name : list str)
  : M (list str) :=
  match words with
  | [] => ret level_name
  | word :: rest =>
      first <- getitem word 0 ;;
      if N.eqb first (ch "(") then ret level_name
      else level_loop rest (level_name ++ [word])
  end.

(** [get_level]. *)
Definition get_level (content : str) : M str :=
  logger_debug "Getting level name: <w>{}</>" [VStr content] ;;
  let split_content := split_ws content in
  in_word_index <- list_index split_content (lit "in") ;;
  let level_name_index := (in_word_index + 1)%Z in
  level_name <- level_loop (slice split_content (Some level_name_index) None) [] ;;
  let level_name := join (lit " ") level_name in
  first <- getitem level_name 0 ;;
  level_name <-
    (if N.eqb first (ch "`") then
       last <- getitem level_name (-1) ;;
       if N.eqb last (ch "`")
       then ret (slice level_name (Some 1%Z) (Some (-1)%Z))
       else ret level_name
     else ret level_name) ;;
  ret (join [] (chars level_name)).

(** [get_score]. *)
Definition get_score (content : str) : M str :=
  logger_debug "Getting player's final score: <w>{}</>" [VStr content] ;;
  let split_content := split_ws content in
  in_word_index <- list_index split_content (lit "in") ;;
  let level_score_index := (in_word_index - 1)%Z in
  level_score <- getitem split_content level_score_index ;;
  ret level_score.

(** [parse_content]. *)
Definition parse_content (content : str) : M (list value) :=
  logger_debug "Parsing content: <w>{}</>" [VStr content] ;;
  logger_trace "Discrading everything except the last line" [] ;;
  content <- getitem (split_sep 10%N content) (-1) ;;
  unpacked <- get_usernames content ;;
  match unpacked with
  | [era; mode; player1; player2] =>
      cp <- (if value_eqb mode (VInt 1)
             then get_country_and_platform content
             else ret (VNone, VNone)) ;;
      let (country, platform) := cp in
      level <- get_level content ;;
      score <- get_score content ;;
      ret [era; mode; player1; player2; VStr level; VStr score;
           country; platform]
  | _ => raise ValueError
  end.

(** [parse_row]: a row is the list [[time, content, reactions]] built by
    [get_data]. *)
Definition parse_row (row : list str) : M (list value) :=
  logger_debug "Parsing row: <w>{}</>" [VList (map VStr row)] ;;
  match row with
  | [time; content; reactions] =>
      parsed_time <- parse_time time ;;
      parsed_content <- parse_content content ;;
      let result := map VStr parsed_time ++ parsed_content ++ [VStr reactions] in
      logger_debug "Parsed row, got <y>{}</>" [VList result] ;;
      ret result
  | _ => raise ValueError
  end.

(** The loop of [main] over the rows of [data]; [parsed] is the list the
    loop appends to. *)
Fixpoint main_loop (data : list (list str)) (parsed : list (list value))
  : M (list (list value)) :=
  match data with
  | [] => ret parsed
  | row :: rest =>
      parsed <- try_except
                  (result <- parse_row row ;; ret (parsed ++ [result]))
                  (fun e => logger_warning e ;; ret parsed) ;;
      main_loop rest parsed
  end.

(** [main] between [get_data] and [write_parsed]: the value of [parsed]
    that is handed to [write_parsed]. *)
Definition main (data : list (list str)) : M (list (list value)) :=
  main_loop data [].

(** What a computation returns, and the world it leaves. *)
Definition result_of {A : Type} (m : M A) (w : world) : outcome A := fst (m w).
Definition world_after {A : Type} (m : M A) (w : world) : world := snd (m w).

(** ** Vocabulary of the properties *)

(** A word is a string without white space. *)
Definition word (s : str) : Prop := forallb (fun c => negb (isspace c)) s = true.

(** A token is a word that is not empty: what [split_ws] yields. *)
Definition token (s : str) : Prop := s <> [] /\ word s.

(** The world with alias table [p] and journal [j]. *)
Definition with_journal (p : list (str * list str)) (j : list log_record)
  : world := {| platforms := p; journal := j |}.

(** The exceptions reported at level WARNING, in order. *)
Definition warnings_of (j : list log_record) : list exn :=
  flat_map (fun r =>
              match lvl r, msg r with
              | WARNING, Exc e => [e]
              | _, _ => []
              end) j.

(** The rows on which [parse_row] was entered, in order: the arguments of
    its opening message. *)
Definition rows_started (j : list log_record) : list value :=
  flat_map (fun r =>
              match msg r with
              | Fmt template args =>
                  if String.eqb template "Parsing row: <w>{}</>"
                  then args else []
              | Exc _ => []
              end) j.

(** A record written by the functions below [parse_row]: neither a warning
    nor the opening message of [parse_row]. *)
Definition inner (r : log_record) : Prop :=
  warnings_of [r] = [] /\ rows_started [r] = [].

(** [framed P m]: the outcome of [m] and the records it appends to the
    journal depend on the alias table only, [m] leaves the alias table as
    it is, and the appended records satisfy [P]. *)
Definition framed {A : Type} (P : log_record -> Prop) (m : M A) : Prop :=
  forall p, exists (o : outcome A) (l : list log_record),
    Forall P l /\
    forall j, m (with_journal p j) = (o, with_journal p (j ++ l)).

(** Stripping the back-quotes around a name, as [get_usernames] and
    [get_level] do it: [raw[1:-1]] when [raw] starts and ends with a
    back-quote, [raw] otherwise. *)
Definition unquote (raw : str) : outcome str :=
  match item raw 0 with
  | Raise e => Raise e
  | Return first =>
      if N.eqb first (ch "`") then
        match item raw (-1) with
        | Raise e => Raise e
        | Return last =>
            if N.eqb last (ch "`")
            then Return (slice raw (Some 1%Z) (Some (-1)%Z))
            else Return raw
        end
      else Return raw
  end.

(** The opening message of [parse_row]. *)
Definition row_start (row : list str) : log_record :=
  {| lvl := DEBUG;
     msg := Fmt "Parsing row: <w>{}</>" [VList (map VStr row)] |}.

(** The records of the rows of [data] that [parse_row] parses in the world
    [w], in the order of [data]. *)
Definition parsed_rows (w : world) (data : list (list str)) : list (list value) :=
  flat_map (fun row =>
              match result_of (parse_row row) w with
              | Return record => [record]
              | Raise _ => []
              end) data.

(** The exceptions of the rows of [data] that [parse_row] does not parse,
    in the order of [data]. *)
Definition failures (w : world) (data : list (list str)) : list exn :=
  flat_map (fun row =>
              match result_of (parse_row row) w with
              | Return _ => []
              | Raise e => [e]
              end) data.

(** Whether [parse_row] returns a record for [row]. *)
Definition parses (w : world) (row : list str) : bool :=
  match result_of (parse_row row) w with
  | Return _ => true
  | Raise _ => false
  end.

(** The line [parse_content] works on: the text after the last line
    break. *)
Definition last_line (content : str) : str := last (split_sep 10%N content) [].

(** A line in which no word of a level name follows the first [in]. *)
Definition no_level_words (line : str) : Prop :=
  exists pre post,
    split_ws line = pre ++ lit "in" :: post /\
    ~ In (lit "in") pre /\
    (post = [] \/ exists rest post', post = (ch "(" :: rest) :: post').

(** The sentence [`A` and `B` increased their score to SCORE in `LEVEL`
    (US-android)]. *)
Definition two_player_sentence (A B score level : str) : str :=
  lit "`" ++ A ++ lit "` and `" ++ B ++ lit "` increased their score to "
  ++ score ++ lit " in `" ++ level ++ lit "` (US-android)".

(** A back-quote before the first word. *)
Definition open_first (words : list str) : list str :=
  match words with
  | [] => []
  | wd :: rest => (ch "`" :: wd) :: rest
  end.

(** A back-quote after the last word. *)
Fixpoint close_last (words : list str) : list str :=
  match words with
  | [] => []
  | wd :: rest =>
      match rest with
      | [] => [wd ++ [ch "`"]]
      | _ :: _ => wd :: close_last rest
      end
  end.

(** The words of a level name as they stand in the sentence, between
    back-quotes. *)
Definition quote_words (words : list str) : list str :=
  close_last (open_first words).

(** The tokens of a two-player sentence whose level name is [words] joined
    by single spaces. *)
Definition sentence_tokens (A B score : str) (words : list str) : list str :=
  [ch "`" :: A ++ [ch "`"]; lit "and"; ch "`" :: B ++ [ch "`"];
   lit "increased"; lit "their"; lit "score"; lit "to"; score; lit "in"]
  ++ quote_words words ++ [lit "(US-android)"].

(** A word that [get_level] keeps: not empty and not starting with an
    opening parenthesis. *)
Definition level_word (wd : str) : Prop :=
  wd <> [] /\ hd_error wd <> Some (ch "(").

(** ** Reading the input table and the whole run *)

(** The loop of [get_data] over the rows the CSV reader yields: the columns
    from index 2 on are unpacked into four names, of which the third
    ([attachments]) is left out. *)
Fixpoint get_data_loop (reader : list (list str)) (results : list (list str))
  : M (list (list str)) :=
  match reader with
  | [] => ret results
  | row :: rest =>
      match slice row (Some 2%Z) None with
      | [time; content; attachments; reactions] =>
          get_data_loop rest (results ++ [[time; content; reactions]])
      | _ => raise ValueError
      end
  end.

(** [get_data], on the rows [reader] that [csv.reader] yields for the
    opened file (opening and decoding the file are outside the model). *)
Definition get_data (file : str) (reader : list (list str))
  : M (list (list str)) :=
  logger_debug "Getting data from <y>{}</>" [VStr file] ;;
  results <- get_data_loop reader [] ;;
  ret (slice results (Some 1%Z) None).

(** [main] as a whole, on the rows the CSV reader yields for [data_file]:
    the value is the list [parsed] handed to [write_parsed].  (The name
    [main] above is the part of this function after [get_data].) *)
Definition main_on_file (data_file : str) (reader : list (list str))
  : M (list (list value)) :=
  data <- get_data data_file reader ;;
  let data_len := Z.of_nat (length data) in
  let info_step := (data_len / 100)%Z in
  let info_step := if (info_step =? 0)%Z then 1%Z else info_step in
  main_loop data [].

(** ** Vocabulary of the further properties *)

(** The tokens [get_usernames] works on: all of them, or all but the first
    two when the content contains the era-1 marker. *)
Definition remaining_tokens (content : str) : list str :=
  if contains (lit "(era 1)") content then skipn 2 (split_ws content)
  else split_ws content.

(** The three columns [get_data] keeps of a six-column row. *)
Definition kept_columns (row : list str) : list str :=
  match row with
  | [_; _; time; content; _; reactions] => [time; content; reactions]
  | _ => []
  end.

(** The fields of the annotation of a content that ends with a closing
    parenthesis: the text between the last opening parenthesis and the final
    character, without its spaces, split at the dashes. *)
Definition annotation_fields (content : str) : list str :=
  split_sep (ch "-")
            (filter (fun x => negb (N.eqb x (ch " ")))
                    (last (split_sep (ch "(") (slice content None (Some (-1)%Z)))
                          [])).

(** The canonical platform names of a table. *)
Definition canonical_names (items : list (str * list str)) : list str :=
  map fst items.

(** The sentence [`A` increased score to SCORE in `LEVEL`
    (COUNTRY - PLATFORM)]. *)
Definition one_player_sentence (A score level country platform : str) : str :=
  lit "`" ++ A ++ lit "` increased score to " ++ score ++ lit " in `"
  ++ level ++ lit "` (" ++ country ++ lit " - " ++ platform ++ lit ")".

(** The tokens of a one-player sentence whose level name is [words] joined
    by single spaces. *)
Definition one_player_tokens (A score : str) (words : list str)
           (country platform : str) : list str :=
  [ch "`" :: A ++ [ch "`"]; lit "increased"; lit "score"; lit "to"; score;
   lit "in"]
  ++ quote_words words
  ++ [ch "(" :: country; lit "-"; platform ++ [ch ")"]].

(** A table as the CSV reader yields it: the header and three rows, of
    which the second has no keyword [in]. *)
Definition example_table : list (list str) :=
  [ [lit "AuthorID"; lit "Author"; lit "Date"; lit "Content";
     lit "Attachments"; lit "Reactions"];
    [lit "1"; lit "Score bot"; lit "2023-05-01T10:00";
     lit "`Al` increased score to 7 in `Maze` (Peru - web)"; []; lit "3"];
    [lit "1"; lit "Score bot"; lit "2023-05-01T10:01";
     lit "Score bot restarted"; []; lit "0"];
    [lit "1"; lit "Score bot"; lit "2023-05-01T10:02";
     lit "`Al` and `Bo` increased their score to 42 in `Lost Maze`"; [];
     lit "1"] ].

(** * Properties of the string and list primitives *)

Section Primitives.

Lemma str_eqb_eq (a b : str) : str_eqb a b = true <-> a = b.
Proof.
  revert b; induction a as [|x a IH]; intros [|y b]; simpl;
    try (split; [discriminate | discriminate]); try tauto.
  rewrite andb_true_iff, N.eqb_eq, IH.
  split; [intros [-> ->]; reflexivity | intros H; injection H; auto].
Qed.

Lemma str_eqb_refl (a : str) : str_eqb a a = true.
Proof. apply str_eqb_eq; reflexivity. Qed.

Lemma str_eqb_neq (a b : str) : str_eqb a b = false <-> a <> b.
Proof.
  rewrite <- str_eqb_eq. destruct (str_eqb a b); split; congruence.
Qed.

Lemma word_app (a b : str) : word a -> word b -> word (a ++ b).
Proof.
  unfold word; intros Ha Hb. rewrite forallb_app, Ha, Hb; reflexivity.
Qed.

Lemma push_word_nonempty (w : str) (ws : list str) :
  w <> [] -> push_word w ws = w :: ws.
Proof. destruct w; [congruence | reflexivity]. Qed.

(** The tokens of [split_ws] are never empty. *)
Lemma split_ws_aux_nonempty (s : str) :
  Forall (fun w => w <> []) (snd (split_ws_aux s)).
Proof.
  induction s as [|c s IH]; simpl; [constructor|].
  destruct (split_ws_aux s) as [w ws]; simpl in *.
  destruct (isspace c); simpl; [|assumption].
  destruct w; simpl; [assumption|].
  constructor; [discriminate | assumption].
Qed.

Lemma split_ws_nonempty (s : str) : Forall (fun w => w <> []) (split_ws s).
Proof.
  unfold split_ws. pose proof (split_ws_aux_nonempty s) as H.
  destruct (split_ws_aux s) as [w ws]; simpl in *.
  destruct w; simpl; [assumption|].
  constructor; [discriminate | assumption].
Qed.

Lemma split_ws_aux_word (w s : str) :
  word w ->
  split_ws_aux (w ++ s) = (w ++ fst (split_ws_aux s), snd (split_ws_aux s)).
Proof.
  unfold word. induction w as [|c w IH]; simpl; intros H.
  - destruct (split_ws_aux s); reflexivity.
  - apply andb_true_iff in H as [Hc Hw]. rewrite (IH Hw).
    apply negb_true_iff in Hc. rewrite Hc. reflexivity.
Qed.

(** A token followed by a white-space character is the first token. *)
Lemma split_ws_token_space (w : str) (c : char) (s : str) :
  token w -> isspace c = true ->
  split_ws (w ++ c :: s) = w :: split_ws s.
Proof.
  intros [Hne Hw] Hc. unfold split_ws.
  rewrite (split_ws_aux_word _ _ Hw). simpl.
  destruct (split_ws_aux s) as [w' ws']. rewrite Hc. simpl.
  rewrite app_nil_r. apply push_word_nonempty; assumption.
Qed.

Lemma split_ws_token (w : str) : token w -> split_ws w = [w].
Proof.
  intros [Hne Hw]. unfold split_ws.
  rewrite <- (app_nil_r w) at 1. rewrite (split_ws_aux_word _ _ Hw). simpl.
  rewrite app_nil_r. apply push_word_nonempty; assumption.
Qed.

(** Splitting the tokens joined by single spaces gives the tokens back. *)
Lemma split_ws_join (toks : list str) :
  Forall token toks -> split_ws (join (lit " ") toks) = toks.
Proof.
  induction 1 as [|w toks Hw Htoks IH]; [reflexivity|].
  simpl. destruct toks as [|w' toks'].
  - apply split_ws_token; assumption.
  - change (lit " " ++ join (lit " ") (w' :: toks'))
      with (32%N :: join (lit " ") (w' :: toks')).
    rewrite split_ws_token_space by (assumption || reflexivity).
    rewrite IH. reflexivity.
Qed.

Lemma join_app (sep : str) (a b : list str) :
  a <> [] -> b <> [] ->
  join sep (a ++ b) = join sep a ++ sep ++ join sep b.
Proof.
  induction a as [|x a IH]; [congruence|]. intros _ Hb.
  destruct a as [|y a].
  - simpl. destruct b; [congruence | reflexivity].
  - change ((x :: y :: a) ++ b) with (x :: (y :: a) ++ b).
    change (join sep (x :: (y :: a) ++ b))
      with (x ++ sep ++ join sep ((y :: a) ++ b)).
    rewrite IH by (discriminate || assumption).
    change (join sep (x :: y :: a)) with (x ++ sep ++ join sep (y :: a)).
    rewrite <- !app_assoc. reflexivity.
Qed.

Lemma join_chars (s : str) : join [] (chars s) = s.
Proof.
  induction s as [|c s IH]; [reflexivity|].
  simpl. destruct s as [|d s]; [reflexivity|].
  simpl in IH |- *. rewrite IH. reflexivity.
Qed.

(** [split_sep] has one field more than there are separators, and joining
    the fields with the separator gives the string back. *)
Lemma split_sep_length (sep : char) (s : str) :
  length (split_sep sep s) = S (count_char sep s).
Proof.
  unfold split_sep, count_char. induction s as [|c s IH]; [reflexivity|].
  simpl. destruct (split_sep_aux sep s) as [w ws].
  rewrite (N.eqb_sym sep c). destruct (N.eqb c sep); simpl in *; lia.
Qed.

Lemma split_sep_join (sep : char) (s : str) :
  join [sep] (split_sep sep s) = s.
Proof.
  unfold split_sep. induction s as [|c s IH]; [reflexivity|].
  simpl. destruct (split_sep_aux sep s) as [w ws].
  destruct (N.eqb_spec c sep) as [->|Hne].
  - change (join [sep] ([] :: w :: ws)) with ([] ++ [sep] ++ join [sep] (w :: ws)).
    rewrite IH. reflexivity.
  - destruct ws as [|w' ws]; simpl in *; rewrite IH; reflexivity.
Qed.

Lemma split_sep_fields (sep : char) (s : str) :
  Forall (fun f => ~ In sep f) (split_sep sep s).
Proof.
  unfold split_sep. induction s as [|c s IH]; simpl.
  - constructor; [intros [] | constructor].
  - destruct (split_sep_aux sep s) as [w ws].
    destruct (N.eqb_spec c sep) as [->|Hne].
    + constructor; [intros [] | assumption].
    + inversion IH as [|? ? Hw Hws]; subst.
      constructor; [|assumption].
      intros [Hc|Hin]; [congruence | contradiction].
Qed.

(** A field without separator, after a separator, is the last field. *)
Lemma split_sep_aux_no_sep (sep : char) (s : str) :
  ~ In sep s -> split_sep_aux sep s = (s, []).
Proof.
  induction s as [|c s IH]; simpl; intros H; [reflexivity|].
  rewrite IH by tauto.
  destruct (N.eqb_spec c sep) as [->|Hne]; [exfalso; tauto | reflexivity].
Qed.

Lemma split_sep_no_sep (sep : char) (s : str) :
  ~ In sep s -> split_sep sep s = [s].
Proof.
  intros H. unfold split_sep. rewrite split_sep_aux_no_sep by assumption.
  reflexivity.
Qed.

Lemma split_sep_app (sep : char) (pre post : str) :
  split_sep sep (pre ++ sep :: post) = split_sep sep pre ++ split_sep sep post.
Proof.
  unfold split_sep. induction pre as [|c pre IH]; simpl.
  - destruct (split_sep_aux sep post) as [w ws]. rewrite N.eqb_refl.
    reflexivity.
  - destruct (split_sep_aux sep (pre ++ sep :: post)) as [w ws].
    destruct (split_sep_aux sep pre) as [w0 ws0].
    destruct (split_sep_aux sep post) as [w1 ws1].
    simpl in IH. injection IH as -> ->.
    destruct (N.eqb c sep); reflexivity.
Qed.

Lemma split_sep_last (sep : char) (pre post : str) :
  ~ In sep post ->
  last (split_sep sep (pre ++ sep :: post)) [] = post.
Proof.
  intros H. rewrite split_sep_app, (split_sep_no_sep _ _ H). apply last_last.
Qed.

Lemma split_sep_two (sep : char) (a b : str) :
  ~ In sep a -> ~ In sep b -> split_sep sep (a ++ sep :: b) = [a; b].
Proof.
  intros Ha Hb. rewrite split_sep_app, (split_sep_no_sep _ _ Ha), (split_sep_no_sep _ _ Hb).
  reflexivity.
Qed.

End Primitives.

(** * Properties of indexing, slicing and searching *)

Section Indexing.

Context {A : Type}.

Lemma item_nth (l : list A) (n : nat) (x : A) :
  nth_error l n = Some x -> item l (Z.of_nat n) = Return x.
Proof.
  intros H. unfold item, norm_index.
  assert (Hlt : n < length l) by (apply nth_error_Some; congruence).
  assert (E1 : (Z.of_nat n <? 0)%Z = false) by (apply Z.ltb_ge; lia).
  assert (E2 : (0 <=? Z.of_nat n)%Z = true) by (apply Z.leb_le; lia).
  assert (E3 : (Z.of_nat n <? Z.of_nat (length l))%Z = true)
    by (apply Z.ltb_lt; lia).
  rewrite E1, E2, E3. cbn [andb]. rewrite Nat2Z.id, H. reflexivity.
Qed.

Lemma item_at (l : list A) (n : nat) (x : A) (i : Z) :
  nth_error l n = Some x -> i = Z.of_nat n -> item l i = Return x.
Proof. intros H ->. apply item_nth. exact H. Qed.

Lemma item_first (x : A) (l : list A) : item (x :: l) 0 = Return x.
Proof. apply (item_at (x :: l) 0 x 0%Z); reflexivity. Qed.

Lemma item_second (x y : A) (l : list A) : item (x :: y :: l) 1 = Return y.
Proof. apply (item_at (x :: y :: l) 1 y 1%Z); reflexivity. Qed.

Lemma item_third (x y z : A) (l : list A) :
  item (x :: y :: z :: l) 2 = Return z.
Proof. apply (item_at (x :: y :: z :: l) 2 z 2%Z); reflexivity. Qed.

(** The index [-1] designates the last element. *)
Lemma item_last (l : list A) (x : A) : item (l ++ [x]) (-1) = Return x.
Proof.
  unfold item, norm_index. rewrite length_app. cbn [length Z.ltb Z.compare].
  replace (-1 + Z.of_nat (length l + 1))%Z with (Z.of_nat (length l)) by lia.
  assert (E2 : (0 <=? Z.of_nat (length l))%Z = true) by (apply Z.leb_le; lia).
  assert (E3 : (Z.of_nat (length l) <? Z.of_nat (length l + 1))%Z = true)
    by (apply Z.ltb_lt; lia).
  rewrite E2, E3. cbn [andb].
  rewrite Nat2Z.id, nth_error_app2, Nat.sub_diag by lia. reflexivity.
Qed.

Lemma item_minus_one (l : list A) (d : A) :
  l <> [] -> item l (-1) = Return (last l d).
Proof.
  intros H. destruct (exists_last H) as [l' [x ->]].
  rewrite item_last, last_last. reflexivity.
Qed.

Lemma slice_from (l : list A) (n : nat) :
  slice l (Some (Z.of_nat n)) None = skipn n l.
Proof.
  unfold slice, clamp.
  destruct (Z.ltb_spec (Z.of_nat n) 0) as [Hneg|_]; [lia|].
  rewrite Nat2Z.id.
  destruct (Nat.le_gt_cases n (length l)) as [Hle|Hgt].
  - rewrite Nat.min_l by assumption.
    apply firstn_all2. rewrite length_skipn. lia.
  - rewrite Nat.min_r by lia. rewrite Nat.sub_diag. simpl.
    symmetry. apply skipn_all2. lia.
Qed.

Lemma slice_drop_last (l : list A) (x : A) :
  slice (l ++ [x]) None (Some (-1)%Z) = l.
Proof.
  unfold slice, clamp. rewrite length_app. cbn [length Z.ltb Z.compare skipn].
  replace (Z.to_nat (Z.max 0 (-1 + Z.of_nat (length l + 1))) - 0)
    with (length l) by lia.
  rewrite firstn_app, Nat.sub_diag, firstn_all. cbn [firstn]. apply app_nil_r.
Qed.

(** [s[1:-1]] removes the first and the last element. *)
Lemma slice_strip (a b : A) (l : list A) :
  slice (a :: l ++ [b]) (Some 1%Z) (Some (-1)%Z) = l.
Proof.
  unfold slice, clamp. cbn [length]. rewrite length_app.
  cbn [length Z.ltb Z.compare].
  replace (Nat.min (Z.to_nat 1) (S (length l + 1))) with 1 by lia.
  replace (Z.to_nat (Z.max 0 (-1 + Z.of_nat (S (length l + 1)))) - 1)
    with (length l) by lia.
  cbn [skipn].
  rewrite firstn_app, Nat.sub_diag, firstn_all. cbn [firstn]. apply app_nil_r.
Qed.

End Indexing.

Section Searching.

Lemma find_index_none (x : str) (l : list str) :
  find_index x l = None <-> ~ In x l.
Proof.
  induction l as [|y l IH]; simpl; [tauto|].
  destruct (str_eqb y x) eqn:E.
  - apply str_eqb_eq in E. split; [discriminate | tauto].
  - apply str_eqb_neq in E.
    destruct (find_index x l).
    + split; [discriminate|]. intros H.
      assert (Hn : ~ In x l) by tauto. apply IH in Hn. discriminate.
    + split; [|reflexivity]. intros _ [Hy|Hin]; [congruence|].
      exact (proj1 IH eq_refl Hin).
Qed.

(** [find_index] finds the first occurrence. *)
Lemma find_index_first (x : str) (pre post : list str) :
  ~ In x pre -> find_index x (pre ++ x :: post) = Some (length pre).
Proof.
  induction pre as [|y pre IH]; simpl; intros H.
  - rewrite str_eqb_refl. reflexivity.
  - assert (E : str_eqb y x = false) by (apply str_eqb_neq; tauto).
    rewrite E, IH by tauto. reflexivity.
Qed.

Lemma find_index_some (x : str) (l : list str) (i : nat) :
  find_index x l = Some i ->
  exists pre post, l = pre ++ x :: post /\ length pre = i /\ ~ In x pre.
Proof.
  revert i; induction l as [|y l IH]; simpl; intros i H; [discriminate|].
  destruct (str_eqb y x) eqn:E.
  - apply str_eqb_eq in E. injection H as <-. subst y.
    exists [], l. simpl. tauto.
  - apply str_eqb_neq in E.
    destruct (find_index x l) as [j|]; [|discriminate].
    injection H as <-.
    destruct (IH j eq_refl) as (pre & post & -> & Hlen & Hnin).
    exists (y :: pre), post. simpl. repeat split; [lia|].
    intros [Hy|Hin]; [congruence | contradiction].
Qed.

End Searching.

(** * Reasoning about computations *)

Section Framed.

Context {A B : Type} (P : log_record -> Prop).

Lemma world_eta (w : world) : w = with_journal (platforms w) (journal w).
Proof. destruct w; reflexivity. Qed.

Lemma framed_lift (o : outcome A) : framed P (lift o).
Proof.
  intros p. exists o, []. split; [constructor|].
  intros j. unfold lift. rewrite app_nil_r. reflexivity.
Qed.

Lemma framed_ret (a : A) : framed P (ret a).
Proof. exact (framed_lift (Return a)). Qed.

Lemma framed_raise (e : exn) : framed P (@raise A e).
Proof. exact (framed_lift (Raise e)). Qed.

Lemma framed_bind (m : M A) (k : A -> M B) :
  framed P m -> (forall a, framed P (k a)) -> framed P (bind m k).
Proof.
  intros Hm Hk p. destruct (Hm p) as (o & l & Hl & Hrun).
  destruct o as [a|e].
  - destruct (Hk a p) as (o' & l' & Hl' & Hrun').
    exists o', (l ++ l'). split; [apply Forall_app; split; assumption|].
    intros j. unfold bind. rewrite Hrun, Hrun', app_assoc. reflexivity.
  - exists (Raise e), l. split; [assumption|].
    intros j. unfold bind. rewrite Hrun. reflexivity.
Qed.

End Framed.

Lemma framed_log (P : log_record -> Prop) (l : level) (m : message) :
  P {| lvl := l; msg := m |} -> framed P (log l m).
Proof.
  intros H p. exists (Return tt), [{| lvl := l; msg := m |}].
  split; [repeat constructor; assumption|]. intros j. reflexivity.
Qed.

Lemma framed_get_platforms (P : log_record -> Prop) : framed P get_platforms.
Proof.
  intros p. exists (Return p), []. split; [constructor|].
  intros j. unfold get_platforms. rewrite app_nil_r. reflexivity.
Qed.

(** A framed computation gives the same outcome in two worlds with the
    same alias table, whatever their journals. *)
Lemma framed_result {A : Type} (P : log_record -> Prop) (m : M A)
      (w1 w2 : world) :
  framed P m -> platforms w1 = platforms w2 ->
  result_of m w1 = result_of m w2.
Proof.
  intros Hm Hp. destruct (Hm (platforms w1)) as (o & l & _ & Hrun).
  unfold result_of. rewrite (world_eta w1), (world_eta w2), <- Hp.
  cbn [platforms journal with_journal]. fold (with_journal (platforms w1) (journal w1)).
  fold (with_journal (platforms w1) (journal w2)).
  rewrite !Hrun. reflexivity.
Qed.

Lemma framed_platforms {A : Type} (P : log_record -> Prop) (m : M A)
      (w : world) :
  framed P m -> platforms (world_after m w) = platforms w.
Proof.
  intros Hm. destruct (Hm (platforms w)) as (o & l & _ & Hrun).
  unfold world_after. rewrite (world_eta w) at 1. rewrite Hrun. reflexivity.
Qed.

(** Decomposing [framed] goals along the structure of the computation. *)
Ltac framed_step :=
  match goal with
  | |- framed _ (bind _ _) => apply framed_bind; [|intros]
  | |- framed _ (ret _) => apply framed_ret
  | |- framed _ (raise _) => apply framed_raise
  | |- framed _ (lift _) => apply framed_lift
  | |- framed _ (getitem _ _) => apply framed_lift
  | |- framed _ (list_index _ _) => apply framed_lift
  | |- framed _ (read_local _) => apply framed_lift
  | |- framed _ get_platforms => apply framed_get_platforms
  | |- framed _ (logger_debug _ _) => apply framed_log; split; reflexivity
  | |- framed _ (logger_trace _ _) => apply framed_log; split; reflexivity
  | |- framed _ (if ?b then _ else _) => destruct b
  | |- framed _ (match ?x with _ => _ end) => destruct x
  | |- framed _ (let (_, _) := ?x in _) => destruct x
  | |- framed _ _ => progress cbv zeta
  end.

Ltac framed_auto := repeat framed_step; auto.

Lemma usernames_loop_inner (raws : list str) (usernames : list value) :
  framed inner (usernames_loop raws usernames).
Proof.
  revert usernames. induction raws as [|raw raws IH]; intros usernames; simpl;
    framed_auto.
Qed.

Lemma get_usernames_inner (content : str) : framed inner (get_usernames content).
Proof.
  unfold get_usernames. framed_auto; apply usernames_loop_inner.
Qed.

Lemma get_country_and_platform_inner (content : str) :
  framed inner (get_country_and_platform content).
Proof. unfold get_country_and_platform. framed_auto. Qed.

Lemma level_loop_inner (words level_name : list str) :
  framed inner (level_loop words level_name).
Proof.
  revert level_name. induction words as [|word words IH]; intros level_name;
    simpl; framed_auto.
Qed.

Lemma get_level_inner (content : str) : framed inner (get_level content).
Proof. unfold get_level. framed_auto; apply level_loop_inner. Qed.

Lemma get_score_inner (content : str) : framed inner (get_score content).
Proof. unfold get_score. framed_auto. Qed.

Lemma parse_time_inner (time : str) : framed inner (parse_time time).
Proof. unfold parse_time. framed_auto. Qed.

Lemma parse_content_inner (content : str) : framed inner (parse_content content).
Proof.
  unfold parse_content. framed_auto;
    auto using get_usernames_inner, get_country_and_platform_inner,
               get_level_inner, get_score_inner.
Qed.

(** * What the functions return

    The outcome of each function with the logging stripped. *)

Ltac run_step :=
  unfold result_of, bind, logger_debug, logger_trace, log, getitem, list_index,
    read_local, get_platforms, lift, ret, raise;
  cbn [fst snd platforms journal].

Lemma get_score_result (content : str) (w : world) :
  result_of (get_score content) w =
  match index_of (split_ws content) (lit "in") with
  | Return i => item (split_ws content) (i - 1)
  | Raise e => Raise e
  end.
Proof.
  unfold get_score. run_step.
  destruct (index_of (split_ws content) (lit "in")) as [i|e]; [|reflexivity].
  destruct (item (split_ws content) (i - 1)); reflexivity.
Qed.

Lemma get_usernames_result (content : str) (w : world) :
  result_of (get_usernames content) w =
  let era1 := contains (lit "(era 1)") content in
  let split_content :=
    if era1 then slice (split_ws content) (Some 2%Z) None
    else split_ws content in
  match item split_content 0 with
  | Raise e => Raise e
  | Return raw0 =>
  match item split_content 2 with
  | Raise e => Raise e
  | Return raw2 =>
  match unquote raw0 with
  | Raise e => Raise e
  | Return player1 =>
  match unquote raw2 with
  | Raise e => Raise e
  | Return player2 =>
  match item split_content 1 with
  | Raise e => Raise e
  | Return token1 =>
      Return [VInt (if era1 then 1 else 2);
              VInt (if contains (lit "(2 players mode)") content then 2
                    else if str_eqb token1 (lit "and") then 2 else 1);
              VStr player1;
              if str_eqb token1 (lit "and") then VStr player2 else VNone]
  end end end end end.
Proof.
  unfold get_usernames, unquote. cbv zeta.
  destruct (contains (lit "(era 1)") content);
    run_step;
    match goal with
    | |- context [item ?l 0%Z] => destruct (item l 0) as [raw0|]; [|reflexivity];
        destruct (item l 2) as [raw2|]; [|reflexivity];
        cbn [usernames_loop]; run_step;
        destruct (item raw0 0) as [f0|]; [|reflexivity];
        destruct (N.eqb f0 (ch "`"));
        run_step;
        try (destruct (item raw0 (-1)) as [l0|]; [|reflexivity];
             destruct (N.eqb l0 (ch "`")); run_step);
        (destruct (item raw2 0) as [f2|]; [|reflexivity];
         destruct (N.eqb f2 (ch "`"));
         run_step;
         try (destruct (item raw2 (-1)) as [l2|]; [|reflexivity];
              destruct (N.eqb l2 (ch "`")); run_step));
        (destruct (item l 1) as [token1|]; [|reflexivity]);
        destruct (str_eqb token1 (lit "and"));
        destruct (contains (lit "(2 players mode)") content); reflexivity
    end.
Qed.

(** [level_loop] neither reads nor changes the world. *)
Lemma level_loop_pure (words level_name : list str) (w : world) :
  level_loop words level_name w
  = (result_of (level_loop words level_name) initial_world, w).
Proof.
  revert level_name. induction words as [|word words IH]; intros level_name;
    [reflexivity|].
  cbn [level_loop]. run_step.
  destruct (item word 0) as [first|]; [|reflexivity].
  destruct (N.eqb first (ch "(")); [reflexivity|].
  rewrite (IH (level_name ++ [word])). run_step.
  fold (result_of (level_loop words (level_name ++ [word])) initial_world).
  reflexivity.
Qed.

Lemma level_loop_cons (word : str) (words level_name : list str) (w : world) :
  result_of (level_loop (word :: words) level_name) w =
  match item word 0 with
  | Raise e => Raise e
  | Return first =>
      if N.eqb first (ch "(") then Return level_name
      else result_of (level_loop words (level_name ++ [word])) w
  end.
Proof.
  cbn [level_loop]. run_step.
  destruct (item word 0) as [first|]; [|reflexivity].
  destruct (N.eqb first (ch "(")); reflexivity.
Qed.

Lemma get_level_result (content : str) (w : world) :
  result_of (get_level content) w =
  match index_of (split_ws content) (lit "in") with
  | Raise e => Raise e
  | Return i =>
  match result_of (level_loop (slice (split_ws content) (Some (i + 1)%Z) None) [])
                  initial_world with
  | Raise e => Raise e
  | Return level_name => unquote (join (lit " ") level_name)
  end end.
Proof.
  unfold get_level, unquote. run_step.
  destruct (index_of (split_ws content) (lit "in")) as [i|]; [|reflexivity].
  rewrite level_loop_pure. run_step.
  destruct (fst (level_loop (slice (split_ws content) (Some (i + 1)%Z) None) []
                            initial_world)) as [level_name|]; [|reflexivity].
  destruct (item (join (lit " ") level_name) 0) as [first|]; [|reflexivity].
  destruct (N.eqb first (ch "`")); run_step.
  - destruct (item (join (lit " ") level_name) (-1)) as [last|]; [|reflexivity].
    destruct (N.eqb last (ch "`")); run_step; rewrite join_chars; reflexivity.
  - rewrite join_chars; reflexivity.
Qed.

Lemma get_country_and_platform_result (content : str) (w : world) :
  result_of (get_country_and_platform content) w =
  match item content (-1) with
  | Raise e => Raise e
  | Return last =>
      if negb (N.eqb last (ch ")")) then Return (VNone, VNone)
      else
        match item (split_sep (ch "(") (slice content None (Some (-1)%Z)))
                   (-1) with
        | Raise e => Raise e
        | Return data =>
            let data :=
              split_sep (ch "-")
                        (filter (fun x => negb (N.eqb x (ch " "))) data) in
            if Nat.eqb (length data) 1 then
              match item data 0 with
              | Raise e => Raise e
              | Return country => Return (VStr country, VNone)
              end
            else
              match data with
              | [country; platform] =>
                  match local (find_platform (platforms w) platform None) with
                  | Raise e => Raise e
                  | Return name => Return (VStr country, VStr name)
                  end
              | _ => Raise ValueError
              end
        end
  end.
Proof.
  unfold get_country_and_platform. run_step.
  destruct (item content (-1)) as [last|]; [|reflexivity].
  destruct (negb (N.eqb last (ch ")"))); [reflexivity|].
  destruct (item (split_sep (ch "(") (slice content None (Some (-1)%Z))) (-1))
    as [data|]; [|reflexivity].
  rewrite join_chars. cbv zeta.
  set (fields := split_sep (ch "-") (filter (fun x => negb (N.eqb x (ch " "))) data)).
  destruct (Nat.eqb (length fields) 1).
  - run_step. destruct (item fields 0); reflexivity.
  - destruct fields as [|country [|platform [|]]]; try reflexivity.
    run_step.
    destruct (local (find_platform (platforms w) platform None)); reflexivity.
Qed.

Ltac fold_worlds p :=
  repeat match goal with
         | |- context [ {| platforms := p; journal := ?X |} ] =>
             change {| platforms := p; journal := X |} with (with_journal p X)
         end.

(** Running a framed call: its outcome is named and its journal absorbed. *)
Ltac run_call H p :=
  let o := fresh "o" in
  let l := fresh "l" in
  let Hrun := fresh "Hrun" in
  destruct (H p) as (o & l & _ & Hrun);
  fold_worlds p; unfold result_of; rewrite ?Hrun;
  cbn [fst snd platforms journal with_journal].

Lemma parse_content_result (content : str) (w : world) :
  result_of (parse_content content) w =
  match item (split_sep 10%N content) (-1) with
  | Raise e => Raise e
  | Return line =>
  match result_of (get_usernames line) w with
  | Raise e => Raise e
  | Return [era; mode; player1; player2] =>
      match (if value_eqb mode (VInt 1)
             then result_of (get_country_and_platform line) w
             else Return (VNone, VNone)) with
      | Raise e => Raise e
      | Return (country, platform) =>
      match result_of (get_level line) w with
      | Raise e => Raise e
      | Return level =>
      match result_of (get_score line) w with
      | Raise e => Raise e
      | Return score =>
          Return [era; mode; player1; player2; VStr level; VStr score;
                  country; platform]
      end end end
  | Return _ => Raise ValueError
  end end.
Proof.
  rewrite (world_eta w). generalize (platforms w) (journal w). clear w.
  intros p j. unfold parse_content. run_step.
  cbn [fst snd platforms journal with_journal].
  destruct (item (split_sep 10%N content) (-1)) as [line|]; [|reflexivity].
  run_call (get_usernames_inner line) p.
  run_call (get_country_and_platform_inner line) p.
  run_call (get_level_inner line) p.
  run_call (get_score_inner line) p.
  destruct o as [[|era [|mode [|player1 [|player2 [|]]]]]|]; try reflexivity.
  destruct (value_eqb mode (VInt 1)).
  - fold_worlds p. rewrite ?Hrun0. destruct o0 as [[country platform]|]; [|reflexivity].
    fold_worlds p. rewrite ?Hrun1. destruct o1 as [level|]; [|reflexivity].
    fold_worlds p. rewrite ?Hrun2. destruct o2; reflexivity.
  - run_step. fold_worlds p. rewrite ?Hrun1. destruct o1 as [level|]; [|reflexivity].
    fold_worlds p. rewrite ?Hrun2. destruct o2; reflexivity.
Qed.

Lemma parse_row_result (row : list str) (w : world) :
  result_of (parse_row row) w =
  match row with
  | [time; content; reactions] =>
      match result_of (parse_content content) w with
      | Raise e => Raise e
      | Return parsed_content =>
          Return (map VStr (split_sep (ch "T") time) ++ parsed_content
                  ++ [VStr reactions])
      end
  | _ => Raise ValueError
  end.
Proof.
  rewrite (world_eta w). generalize (platforms w) (journal w). clear w.
  intros p j. unfold parse_row, parse_time. run_step.
  destruct row as [|time [|content [|reactions [|]]]]; try reflexivity.
  cbn [fst snd platforms journal with_journal].
  run_call (parse_content_inner content) p.
  destruct o; reflexivity.
Qed.

(** ** The batch loop *)

Lemma warnings_of_app (a b : list log_record) :
  warnings_of (a ++ b) = warnings_of a ++ warnings_of b.
Proof. apply flat_map_app. Qed.

Lemma rows_started_app (a b : list log_record) :
  rows_started (a ++ b) = rows_started a ++ rows_started b.
Proof. apply flat_map_app. Qed.

Lemma inner_silent (l : list log_record) :
  Forall inner l -> warnings_of l = [] /\ rows_started l = [].
Proof.
  induction 1 as [|r l [Hw Hr] _ [IHw IHr]]; [split; reflexivity|].
  change (r :: l) with ([r] ++ l).
  rewrite warnings_of_app, rows_started_app, Hw, Hr, IHw, IHr.
  split; reflexivity.
Qed.

(** [parse_row] writes its opening message and then only inner records. *)
Lemma parse_row_framed (row : list str) (p : list (str * list str)) :
  exists (o : outcome (list value)) (l : list log_record),
    Forall inner l /\
    forall j, parse_row row (with_journal p j)
              = (o, with_journal p (j ++ row_start row :: l)).
Proof.
  assert (Hrest : framed inner
            (match row with
             | [time; content; reactions] =>
                 parsed_time <- parse_time time ;;
                 parsed_content <- parse_content content ;;
                 let result := map VStr parsed_time ++ parsed_content
                               ++ [VStr reactions] in
                 logger_debug "Parsed row, got <y>{}</>" [VList result] ;;
                 ret result
             | _ => raise ValueError
             end)).
  { framed_auto; auto using parse_time_inner, parse_content_inner. }
  destruct (Hrest p) as (o & l & Hl & Hrun).
  exists o, l. split; [assumption|]. intros j.
  unfold parse_row. run_step. fold_worlds p.
  rewrite Hrun, <- app_assoc. reflexivity.
Qed.

Lemma main_loop_spec (data : list (list str)) :
  forall (parsed : list (list value)) (p : list (str * list str))
         (j0 j : list log_record),
  exists l,
    main_loop data parsed (with_journal p j)
    = (Return (parsed ++ parsed_rows (with_journal p j0) data),
       with_journal p (j ++ l)) /\
    warnings_of l = failures (with_journal p j0) data /\
    rows_started l = map (fun row => VList (map VStr row)) data.
Proof.
  induction data as [|row data IH]; intros parsed p j0 j.
  - exists []. cbn. rewrite !app_nil_r. repeat split.
  - destruct (parse_row_framed row p) as (o & l & Hl & Hrun).
    destruct (inner_silent l Hl) as [Hw Hr].
    assert (Ho : result_of (parse_row row) (with_journal p j0) = o)
      by (unfold result_of; rewrite Hrun; reflexivity).
    cbn [main_loop parsed_rows failures flat_map map]. rewrite Ho.
    unfold try_except, bind at 1 2. rewrite Hrun.
    fold (parsed_rows (with_journal p j0) data).
    fold (failures (with_journal p j0) data).
    destruct o as [record|e].
    + destruct (IH (parsed ++ [record]) p j0 (j ++ row_start row :: l))
        as (l' & Hloop & Hw' & Hr').
      exists ((row_start row :: l) ++ l').
      unfold ret. rewrite Hloop. split.
      * rewrite <- !app_assoc. reflexivity.
      * change (row_start row :: l) with ([row_start row] ++ l).
        rewrite !warnings_of_app, !rows_started_app, Hw, Hr, Hw', Hr'.
        split; reflexivity.
    + unfold logger_warning, log, bind, ret.
      cbn [platforms journal with_journal]. fold_worlds p.
      destruct (IH parsed p j0
                   ((j ++ row_start row :: l) ++ [{| lvl := WARNING; msg := Exc e |}]))
        as (l' & Hloop & Hw' & Hr').
      exists ((row_start row :: l) ++ [{| lvl := WARNING; msg := Exc e |}] ++ l').
      rewrite Hloop. split.
      * rewrite <- !app_assoc. reflexivity.
      * change (row_start row :: l) with ([row_start row] ++ l).
        rewrite !warnings_of_app, !rows_started_app, Hw, Hr, Hw', Hr'.
        split; reflexivity.
Qed.

(** A row that fails leaves no record: [parsed_rows] skips it. *)
Lemma parsed_rows_skip (w : world) (before after : list (list str))
      (row : list str) (e : exn) :
  result_of (parse_row row) w = Raise e ->
  parsed_rows w (before ++ row :: after) = parsed_rows w (before ++ after).
Proof.
  intros H. unfold parsed_rows. rewrite !flat_map_app. cbn [flat_map].
  rewrite H. reflexivity.
Qed.

Lemma parsed_rows_failures_length (w : world) (data : list (list str)) :
  length (parsed_rows w data) + length (failures w data) = length data.
Proof.
  induction data as [|row data IH]; [reflexivity|].
  cbn [parsed_rows failures flat_map length].
  fold (parsed_rows w data). fold (failures w data).
  destruct (result_of (parse_row row) w); cbn [app length]; lia.
Qed.

Lemma main_result (data : list (list str)) (w : world) :
  result_of (main data) w = Return (parsed_rows w data).
Proof.
  rewrite (world_eta w) at 1.
  destruct (main_loop_spec data [] (platforms w) (journal w) (journal w))
    as (l & Hloop & _).
  unfold result_of, main. rewrite Hloop. rewrite <- world_eta. reflexivity.
Qed.

Lemma get_score_before_in (line : str) (w : world) (pre : list str)
      (tok : str) (post : list str) :
  split_ws line = pre ++ tok :: lit "in" :: post ->
  ~ In (lit "in") (pre ++ [tok]) ->
  result_of (get_score line) w = Return tok.
Proof.
  intros Htok Hnin. rewrite get_score_result. unfold index_of.
  replace (pre ++ tok :: lit "in" :: post)
    with ((pre ++ [tok]) ++ lit "in" :: post) in Htok
    by (rewrite <- app_assoc; reflexivity).
  rewrite Htok, find_index_first by assumption.
  rewrite length_app. cbn [length].
  replace (Z.of_nat (length pre + 1) - 1)%Z with (Z.of_nat (length pre))
    by lia.
  apply item_nth. rewrite <- app_assoc.
  rewrite nth_error_app2, Nat.sub_diag by lia. reflexivity.
Qed.

(** * The claims *)

(** ** Timestamp splitter *)

(** C4 (as amended).  [parse_time] never fails: it returns the fields
    obtained by splitting the timestamp at every [T].  There is one field
    more than there are [T]s, no field contains a [T], joining the fields
    with [T] gives the timestamp back, and the result is a 2-element
    sequence exactly when the timestamp contains exactly one [T]. *)
Theorem parse_time_splits_at_every_T (time : str) (w : world) :
  exists parts,
    result_of (parse_time time) w = Return parts /\
    length parts = 1 + count_char (ch "T") time /\
    Forall (fun part => ~ In (ch "T") part) parts /\
    join [ch "T"] parts = time /\
    (length parts = 2 <-> count_char (ch "T") time = 1).
Proof.
  exists (split_sep (ch "T") time).
  pose proof (split_sep_length (ch "T") time) as Hlen.
  repeat split.
  - exact Hlen.
  - apply split_sep_fields.
  - apply split_sep_join.
  - lia.
  - lia.
Qed.

(** C4, refuted as stated.  A timestamp without [T] does not make
    [parse_time] fail: the result is the 1-element sequence holding the
    timestamp; and a timestamp with two [T]s is split at both, into three
    fields, not at the first only. *)
Lemma parse_time_without_T_returns :
  count_char (ch "T") (lit "2023-05-01 10:00") = 0 /\
  result_of (parse_time (lit "2023-05-01 10:00")) initial_world
    = Return [lit "2023-05-01 10:00"] /\
  result_of (parse_time (lit "2023-05-01T10:00TZ")) initial_world
    = Return [lit "2023-05-01"; lit "10:00"; lit "Z"].
Proof. repeat split. Qed.

(** ** Score extractor *)

(** C2 (as amended).  [get_score] fails with [ValueError] (the
    specification's [MissingKeywordError]) when no token is [in]; it returns
    the token before the first [in] when that [in] is not the first token;
    and when [in] is the first token it does not fail: the index [-1] wraps
    around and the last token of the content is returned. *)
Theorem get_score_spec (content : str) (w : world) :
  (~ In (lit "in") (split_ws content) ->
   result_of (get_score content) w = Raise ValueError) /\
  (forall pre tok post,
     split_ws content = pre ++ tok :: lit "in" :: post ->
     ~ In (lit "in") (pre ++ [tok]) ->
     result_of (get_score content) w = Return tok) /\
  (forall post,
     split_ws content = lit "in" :: post ->
     result_of (get_score content) w = Return (last (split_ws content) [])).
Proof.
  repeat split.
  - intros H. rewrite get_score_result. unfold index_of.
    apply find_index_none in H. rewrite H. reflexivity.
  - intros pre tok post Htok Hnin.
    exact (get_score_before_in content w pre tok post Htok Hnin).
  - intros post Htok. rewrite get_score_result. unfold index_of. rewrite Htok.
    change (find_index (lit "in") (lit "in" :: post)) with (Some 0).
    apply item_minus_one. discriminate.
Qed.

Lemma get_score_spec_witness :
  result_of (get_score (lit "no keyword here")) initial_world = Raise ValueError /\
  result_of (get_score (lit "Bob increased score to 7 in Desert")) initial_world
    = Return (lit "7") /\
  result_of (get_score (lit "in Desert (France)")) initial_world
    = Return (lit "(France)").
Proof.
  split; [|split].
  - apply (proj1 (get_score_spec (lit "no keyword here") initial_world)).
    vm_compute. intuition discriminate.
  - apply (proj1 (proj2 (get_score_spec
                           (lit "Bob increased score to 7 in Desert")
                           initial_world))
             [lit "Bob"; lit "increased"; lit "score"; lit "to"]
             (lit "7") [lit "Desert"]).
    + reflexivity.
    + vm_compute. intuition discriminate.
  - apply (proj2 (proj2 (get_score_spec (lit "in Desert (France)")
                                        initial_world))
             [lit "Desert"; lit "(France)"]).
    reflexivity.
Defined.

(** C2, refuted as stated.  In the content below [in] is the first token,
    and [get_score] returns the last token instead of failing with
    [IndexError]. *)
Lemma get_score_in_first_returns :
  hd_error (split_ws (lit "in Desert (France)")) = Some (lit "in") /\
  result_of (get_score (lit "in Desert (France)")) initial_world
    = Return (lit "(France)") /\
  result_of (get_score (lit "in Desert (France)")) initial_world
    <> Raise IndexError.
Proof. repeat split. discriminate. Qed.

(** ** Batch driver *)

Lemma parsed_rows_subsequence (w : world) (data : list (list str)) :
  Forall2 (fun row record => result_of (parse_row row) w = Return record)
          (filter (parses w) data) (parsed_rows w data).
Proof.
  induction data as [|row data IH]; [constructor|].
  cbn [filter parsed_rows flat_map]. fold (parsed_rows w data). unfold parses at 1.
  destruct (result_of (parse_row row) w) as [record|e] eqn:E; cbn [app].
  - constructor; assumption.
  - assumption.
Qed.

(** C6.  For every sequence [data] of rows, the list [main] hands to the
    writer is exactly the records of the rows that parse, in the order of
    the input: the records of the sub-sequence [filter (parses w) data].
    A row that fails is reported once at level WARNING and leaves no
    record; [parse_row] is entered exactly once per row, in input order
    (no row is tried again); every row gives either a record or a warning;
    and removing a failing row from the input does not change the output,
    which is the records of the rows before it followed by those of the
    rows after it. *)
Theorem main_keeps_parsed_rows_in_order (data : list (list str)) (w : world) :
  result_of (main data) w = Return (parsed_rows w data) /\
  Forall2 (fun row record => result_of (parse_row row) w = Return record)
          (filter (parses w) data) (parsed_rows w data) /\
  warnings_of (journal (world_after (main data) w))
    = warnings_of (journal w) ++ failures w data /\
  rows_started (journal (world_after (main data) w))
    = rows_started (journal w) ++ map (fun row => VList (map VStr row)) data /\
  length (parsed_rows w data) + length (failures w data) = length data /\
  (forall before row after e,
      data = before ++ row :: after ->
      result_of (parse_row row) w = Raise e ->
      result_of (main data) w
        = Return (parsed_rows w before ++ parsed_rows w after) /\
      result_of (main data) w = result_of (main (before ++ after)) w).
Proof.
  split; [apply main_result|].
  split; [apply parsed_rows_subsequence|].
  destruct (main_loop_spec data [] (platforms w) (journal w) (journal w))
    as (l & Hloop & Hw & Hr).
  rewrite <- world_eta in Hloop, Hw.
  assert (Hafter : world_after (main data) w
                   = with_journal (platforms w) (journal w ++ l)).
  { unfold world_after, main. rewrite Hloop. reflexivity. }
  rewrite Hafter. cbn [journal with_journal].
  rewrite warnings_of_app, rows_started_app, Hw, Hr.
  split; [reflexivity|]. split; [reflexivity|].
  split; [apply parsed_rows_failures_length|].
  intros before row after e -> Hrow.
  rewrite !main_result, (parsed_rows_skip w before after row e Hrow).
  split; [|reflexivity].
  unfold parsed_rows. rewrite flat_map_app. reflexivity.
Qed.

Lemma main_keeps_parsed_rows_in_order_witness :
  result_of (main [ [lit "2023-05-01T10:00"; lit "Bob beat Al 7 in Desert"; lit "1"];
                    [lit "2023-05-01T10:01"; lit "no keyword at all"; lit "2"];
                    [lit "2023-05-01T10:02"; lit "Eve beat Al 9 in Forest"; lit "3"] ])
            initial_world
  = result_of (main [ [lit "2023-05-01T10:00"; lit "Bob beat Al 7 in Desert"; lit "1"];
                      [lit "2023-05-01T10:02"; lit "Eve beat Al 9 in Forest"; lit "3"] ])
              initial_world.
Proof.
  apply (proj2 (proj2 (proj2 (proj2 (proj2 (proj2
           (main_keeps_parsed_rows_in_order
              [ [lit "2023-05-01T10:00"; lit "Bob beat Al 7 in Desert"; lit "1"];
                [lit "2023-05-01T10:01"; lit "no keyword at all"; lit "2"];
                [lit "2023-05-01T10:02"; lit "Eve beat Al 9 in Forest"; lit "3"] ]
              initial_world)))))
           [ [lit "2023-05-01T10:00"; lit "Bob beat Al 7 in Desert"; lit "1"] ]
           [lit "2023-05-01T10:01"; lit "no keyword at all"; lit "2"]
           [ [lit "2023-05-01T10:02"; lit "Eve beat Al 9 in Forest"; lit "3"] ]
           ValueError eq_refl eq_refl)).
Defined.

(** ** Determinism of the content parser *)

(** C7.  Two invocations of [parse_content] on the same string yield the
    same record: the outcome of a second invocation, in the world the first
    one leaves, is the outcome of the first.  The only state
    [parse_content] reads is the alias table, which it does not change, and
    its outcome does not depend on the journal of the logger. *)
Theorem parse_content_deterministic (content : str) (w : world) :
  result_of (parse_content content) (world_after (parse_content content) w)
    = result_of (parse_content content) w /\
  platforms (world_after (parse_content content) w) = platforms w /\
  (forall j, result_of (parse_content content) (with_journal (platforms w) j)
             = result_of (parse_content content) w).
Proof.
  pose proof (parse_content_inner content) as Hframed.
  pose proof (framed_platforms inner (parse_content content) w Hframed) as Hp.
  repeat split.
  - apply (framed_result inner); assumption.
  - assumption.
  - intros j. apply (framed_result inner); [assumption | reflexivity].
Qed.

(** ** Shape of the records *)

Lemma slice_from_two {A : Type} (l : list A) :
  slice l (Some 2%Z) None = skipn 2 l.
Proof. exact (slice_from l 2). Qed.

Lemma get_usernames_result_remaining (content : str) (w : world) :
  result_of (get_usernames content) w =
  match item (remaining_tokens content) 0 with
  | Raise e => Raise e
  | Return raw0 =>
  match item (remaining_tokens content) 2 with
  | Raise e => Raise e
  | Return raw2 =>
  match unquote raw0 with
  | Raise e => Raise e
  | Return player1 =>
  match unquote raw2 with
  | Raise e => Raise e
  | Return player2 =>
  match item (remaining_tokens content) 1 with
  | Raise e => Raise e
  | Return token1 =>
      Return [VInt (if contains (lit "(era 1)") content then 1 else 2);
              VInt (if contains (lit "(2 players mode)") content then 2
                    else if str_eqb token1 (lit "and") then 2 else 1);
              VStr player1;
              if str_eqb token1 (lit "and") then VStr player2 else VNone]
  end end end end end.
Proof.
  rewrite get_usernames_result. cbv zeta. unfold remaining_tokens.
  rewrite slice_from_two. reflexivity.
Qed.

Lemma item_return_nth {A : Type} (l : list A) (n : nat) (x : A) :
  item l (Z.of_nat n) = Return x -> nth_error l n = Some x.
Proof.
  unfold item, norm_index.
  assert (E1 : (Z.of_nat n <? 0)%Z = false) by (apply Z.ltb_ge; lia).
  rewrite E1.
  destruct ((0 <=? Z.of_nat n) && (Z.of_nat n <? Z.of_nat (length l)))%Z;
    [|discriminate].
  rewrite Nat2Z.id. destruct (nth_error l n) as [y|]; [|discriminate].
  intros H. injection H as ->. reflexivity.
Qed.


Lemma split_sep_not_nil (sep : char) (s : str) : split_sep sep s <> [].
Proof. unfold split_sep. destruct (split_sep_aux sep s). discriminate. Qed.

Lemma item_last_line (content : str) :
  item (split_sep 10%N content) (-1) = Return (last_line content).
Proof. apply item_minus_one, split_sep_not_nil. Qed.

Lemma get_usernames_shape (line : str) (w : world) (l : list value) :
  result_of (get_usernames line) w = Return l ->
  exists era mode player1 player2,
    l = [VInt era; VInt mode; VStr player1; player2] /\
    (era = 1 \/ era = 2)%Z /\
    (mode = 1 \/ mode = 2)%Z /\
    (player2 <> VNone -> mode = 2%Z) /\
    (mode = 2%Z <->
     player2 <> VNone \/ contains (lit "(2 players mode)") line = true).
Proof.
  rewrite get_usernames_result. cbv zeta.
  repeat match goal with
         | |- context [match item ?l ?i with _ => _ end] =>
             destruct (item l i); [|discriminate]
         | |- context [match unquote ?r with _ => _ end] =>
             destruct (unquote r); [|discriminate]
         end.
  intros H. injection H as <-.
  do 4 eexists. split; [reflexivity|].
  destruct (contains (lit "(era 1)") line);
    destruct (contains (lit "(2 players mode)") line);
    destruct (str_eqb _ (lit "and"));
    repeat split; auto; try discriminate; try congruence;
    try (intros [H|H]; congruence);
    try (intros _; left; discriminate).
Qed.

Lemma parse_content_shape (content : str) (w : world) (record : list value) :
  result_of (parse_content content) w = Return record ->
  exists era mode player1 player2 level score country platform,
    record = [VInt era; VInt mode; VStr player1; player2;
              VStr level; VStr score; country; platform] /\
    result_of (get_usernames (last_line content)) w
      = Return [VInt era; VInt mode; VStr player1; player2] /\
    result_of (get_level (last_line content)) w = Return level /\
    result_of (get_score (last_line content)) w = Return score /\
    (mode <> 1%Z -> country = VNone /\ platform = VNone).
Proof.
  rewrite parse_content_result, item_last_line.
  destruct (result_of (get_usernames (last_line content)) w) as [l|] eqn:Hu;
    [|discriminate].
  destruct (get_usernames_shape _ _ _ Hu)
    as (era & mode & player1 & player2 & -> & _).
  destruct (value_eqb (VInt mode) (VInt 1)) eqn:Hmode.
  - destruct (result_of (get_country_and_platform (last_line content)) w)
      as [[country platform]|]; [|discriminate].
    destruct (result_of (get_level (last_line content)) w) as [level|];
      [|discriminate].
    destruct (result_of (get_score (last_line content)) w) as [score|];
      [|discriminate].
    intros H. injection H as <-.
    exists era, mode, player1, player2, level, score, country, platform.
    repeat split. 
    all: exfalso; apply H; apply Z.eqb_eq; exact Hmode.
  - destruct (result_of (get_level (last_line content)) w) as [level|];
      [|discriminate].
    destruct (result_of (get_score (last_line content)) w) as [score|];
      [|discriminate].
    intros H. injection H as <-.
    exists era, mode, player1, player2, level, score, VNone, VNone.
    repeat split.
Qed.

(** C3 (as amended).  In every record [parse_row] produces, [player2] is
    present exactly when the token at index 1 of the last line (after the
    era handling) is [and]; a present [player2] implies [mode = 2]; and
    [mode = 2] holds exactly when [player2] is present or the sentence
    contains [(2 players mode)].  So for a sentence whose token at index 1
    is not [and] but which contains the marker, the mode is forced to 2
    while [player2] stays absent: the converse implication does not hold. *)
Theorem player2_present_implies_mode_2 (row : list str) (w : world)
        (record : list value) :
  result_of (parse_row row) w = Return record ->
  exists time content reactions era mode player1 player2 level score
         country platform token1,
    row = [time; content; reactions] /\
    record = map VStr (split_sep (ch "T") time)
             ++ [VInt era; VInt mode; VStr player1; player2;
                 VStr level; VStr score; country; platform]
             ++ [VStr reactions] /\
    (mode = 1 \/ mode = 2)%Z /\
    (player2 <> VNone -> mode = 2%Z) /\
    (mode = 2%Z <->
     player2 <> VNone \/
     contains (lit "(2 players mode)") (last_line content) = true) /\
    nth_error (remaining_tokens (last_line content)) 1 = Some token1 /\
    (player2 <> VNone <-> token1 = lit "and") /\
    (token1 <> lit "and" -> player2 = VNone) /\
    (token1 <> lit "and" ->
     contains (lit "(2 players mode)") (last_line content) = true ->
     mode = 2%Z /\ player2 = VNone).
Proof.
  rewrite parse_row_result.
  destruct row as [|time [|content [|reactions [|]]]]; try discriminate.
  destruct (result_of (parse_content content) w) as [parsed|] eqn:Hc;
    [|discriminate].
  intros H. injection H as <-.
  destruct (parse_content_shape _ _ _ Hc)
    as (era & mode & player1 & player2 & level & score & country & platform
        & -> & Hu & _).
  rewrite get_usernames_result_remaining in Hu.
  destruct (item (remaining_tokens (last_line content)) 0) as [raw0|];
    [|discriminate].
  destruct (item (remaining_tokens (last_line content)) 2) as [raw2|];
    [|discriminate].
  destruct (unquote raw0) as [name1|]; [|discriminate].
  destruct (unquote raw2) as [name2|]; [|discriminate].
  destruct (item (remaining_tokens (last_line content)) 1) as [token1|] eqn:E1;
    [|discriminate].
  apply (item_return_nth _ 1) in E1.
  injection Hu as <- <- <- <-.
  exists time, content, reactions,
         (if contains (lit "(era 1)") (last_line content) then 1 else 2)%Z,
         (if contains (lit "(2 players mode)") (last_line content) then 2
          else if str_eqb token1 (lit "and") then 2 else 1)%Z,
         name1,
         (if str_eqb token1 (lit "and") then VStr name2 else VNone),
         level, score, country, platform, token1.
  split; [reflexivity|]. split; [reflexivity|].
  destruct (str_eqb token1 (lit "and")) eqn:Eand;
    [apply str_eqb_eq in Eand | apply str_eqb_neq in Eand];
    destruct (contains (lit "(2 players mode)") (last_line content));
    repeat split; try exact E1;
    intuition (try congruence; try discriminate).
Qed.

Lemma player2_present_implies_mode_2_witness :
  exists time content reactions era mode player1 player2 level score
         country platform token1,
    [lit "2023-05-01T10:00";
     lit "`Al` and `Bo` increased their score to 42 in `Maze`";
     lit "3"] = [time; content; reactions] /\
    [VStr (lit "2023-05-01"); VStr (lit "10:00"); VInt 2; VInt 2;
     VStr (lit "Al"); VStr (lit "Bo"); VStr (lit "Maze");
     VStr (lit "42"); VNone; VNone; VStr (lit "3")]
    = map VStr (split_sep (ch "T") time)
      ++ [VInt era; VInt mode; VStr player1; player2;
          VStr level; VStr score; country; platform]
      ++ [VStr reactions] /\
    (mode = 1 \/ mode = 2)%Z /\
    (player2 <> VNone -> mode = 2%Z) /\
    (mode = 2%Z <->
     player2 <> VNone \/
     contains (lit "(2 players mode)") (last_line content) = true) /\
    nth_error (remaining_tokens (last_line content)) 1 = Some token1 /\
    (player2 <> VNone <-> token1 = lit "and") /\
    (token1 <> lit "and" -> player2 = VNone) /\
    (token1 <> lit "and" ->
     contains (lit "(2 players mode)") (last_line content) = true ->
     mode = 2%Z /\ player2 = VNone).
Proof.
  exact (player2_present_implies_mode_2
           [lit "2023-05-01T10:00";
            lit "`Al` and `Bo` increased their score to 42 in `Maze`";
            lit "3"] initial_world
           [VStr (lit "2023-05-01"); VStr (lit "10:00"); VInt 2; VInt 2;
            VStr (lit "Al"); VStr (lit "Bo"); VStr (lit "Maze");
            VStr (lit "42"); VNone; VNone; VStr (lit "3")]
           eq_refl).
Defined.

(** C3, refuted as stated.  The sentence below has no [and] at index 1 but
    carries the marker [(2 players mode)]: the record has [mode = 2] and
    [player2] absent. *)
Lemma legacy_marker_gives_mode_2_without_player2 :
  result_of (parse_row [lit "2023-05-01T10:00";
                        lit "`Alice` increased their score to 7 in `Desert` (2 players mode)";
                        lit "0"]) initial_world
  = Return [VStr (lit "2023-05-01"); VStr (lit "10:00");
            VInt 2; VInt 2; VStr (lit "Alice"); VNone;
            VStr (lit "Desert"); VStr (lit "7"); VNone; VNone;
            VStr (lit "0")] /\
  ~ (VNone <> VNone <-> VInt 2 = VInt 2).
Proof.
  split; [reflexivity|]. intros [_ H]. apply H; reflexivity.
Qed.

(** C10.  A record [parse_row] produces consists of the fields of the
    timestamp split at every [T], the eight fields of [parse_content] and
    the reaction count: it has 10 + (number of [T]s in the timestamp)
    fields, hence the 11 fields of the output layout exactly when the
    timestamp contains exactly one [T]; the field [k] of [parse_content]
    sits at position 1 + (number of [T]s) + [k], which is its documented
    position 2 + [k] only in that case. *)
Theorem parse_row_field_count (row : list str) (w : world)
        (record : list value) :
  result_of (parse_row row) w = Return record ->
  exists time content reactions parsed_content,
    row = [time; content; reactions] /\
    result_of (parse_content content) w = Return parsed_content /\
    length parsed_content = 8 /\
    record = map VStr (split_sep (ch "T") time) ++ parsed_content
             ++ [VStr reactions] /\
    length record = 10 + count_char (ch "T") time /\
    (length record = 11 <-> count_char (ch "T") time = 1) /\
    (forall k, k < 8 ->
       nth_error record (1 + count_char (ch "T") time + k)
       = nth_error parsed_content k) /\
    nth_error record (9 + count_char (ch "T") time) = Some (VStr reactions).
Proof.
  rewrite parse_row_result.
  destruct row as [|time [|content [|reactions [|]]]]; try discriminate.
  destruct (result_of (parse_content content) w) as [parsed|] eqn:Hc;
    [|discriminate].
  intros H. injection H as <-.
  assert (Hlen : length parsed = 8).
  { destruct (parse_content_shape _ _ _ Hc)
      as (? & ? & ? & ? & ? & ? & ? & ? & -> & _). reflexivity. }
  pose proof (split_sep_length (ch "T") time) as Hsplit.
  assert (Hmap : length (map VStr (split_sep (ch "T") time))
                 = 1 + count_char (ch "T") time)
    by (rewrite length_map; exact Hsplit).
  exists time, content, reactions, parsed.
  repeat split; try assumption; change (ch "T") with 84%N in *;
    set (n := count_char 84%N time) in *;
    set (parts := map VStr (split_sep 84%N time)) in *.
  - rewrite !length_app, Hmap, Hlen. cbn [length]. lia.
  - rewrite !length_app, Hmap, Hlen. cbn [length]. lia.
  - rewrite !length_app, Hmap, Hlen. cbn [length]. lia.
  - intros k Hk. rewrite nth_error_app2 by lia.
    replace (1 + n + k - length parts) with k by lia.
    apply nth_error_app1. lia.
  - rewrite nth_error_app2 by lia.
    replace (9 + n - length parts) with 8 by lia.
    rewrite nth_error_app2 by lia. rewrite Hlen. reflexivity.
Qed.

Lemma parse_row_field_count_witness :
  exists time content reactions parsed_content,
    [lit "2023-05-01 10:00"; lit "Bob beat Al 7 in Desert"; lit "1"]
    = [time; content; reactions] /\
    result_of (parse_content content) initial_world = Return parsed_content /\
    length parsed_content = 8 /\
    [VStr (lit "2023-05-01 10:00"); VInt 2; VInt 1;
     VStr (lit "Bob"); VNone; VStr (lit "Desert"); VStr (lit "7");
     VNone; VNone; VStr (lit "1")]
    = map VStr (split_sep (ch "T") time) ++ parsed_content
      ++ [VStr reactions] /\
    length [VStr (lit "2023-05-01 10:00"); VInt 2; VInt 1;
            VStr (lit "Bob"); VNone; VStr (lit "Desert"); VStr (lit "7");
            VNone; VNone; VStr (lit "1")]
    = 10 + count_char (ch "T") time /\
    (length [VStr (lit "2023-05-01 10:00"); VInt 2; VInt 1;
             VStr (lit "Bob"); VNone; VStr (lit "Desert"); VStr (lit "7");
             VNone; VNone; VStr (lit "1")] = 11
     <-> count_char (ch "T") time = 1) /\
    (forall k, k < 8 ->
       nth_error [VStr (lit "2023-05-01 10:00"); VInt 2; VInt 1;
                  VStr (lit "Bob"); VNone; VStr (lit "Desert");
                  VStr (lit "7"); VNone; VNone; VStr (lit "1")]
                 (1 + count_char (ch "T") time + k)
       = nth_error parsed_content k) /\
    nth_error [VStr (lit "2023-05-01 10:00"); VInt 2; VInt 1;
               VStr (lit "Bob"); VNone; VStr (lit "Desert");
               VStr (lit "7"); VNone; VNone; VStr (lit "1")]
              (9 + count_char (ch "T") time) = Some (VStr reactions).
Proof.
  exact (parse_row_field_count
           [lit "2023-05-01 10:00"; lit "Bob beat Al 7 in Desert"; lit "1"]
           initial_world
           [VStr (lit "2023-05-01 10:00"); VInt 2; VInt 1;
            VStr (lit "Bob"); VNone; VStr (lit "Desert"); VStr (lit "7");
            VNone; VNone; VStr (lit "1")]
           eq_refl).
Defined.

(** ** Level extractor *)

Lemma skipn_past (A : Type) (pre : list A) (x : A) (post : list A) :
  skipn (S (length pre)) (pre ++ x :: post) = post.
Proof. induction pre as [|y pre IH]; [reflexivity | exact IH]. Qed.

(** With [in] first found after the tokens [pre], the level name is read
    from the tokens [post] that follow it. *)
Lemma get_level_after_in (line : str) (w : world) (pre post : list str) :
  split_ws line = pre ++ lit "in" :: post ->
  ~ In (lit "in") pre ->
  result_of (get_level line) w =
  match result_of (level_loop post []) initial_world with
  | Raise e => Raise e
  | Return level_name => unquote (join (lit " ") level_name)
  end.
Proof.
  intros Htok Hpre. rewrite get_level_result, Htok. unfold index_of.
  rewrite find_index_first by assumption.
  replace (Z.of_nat (length pre) + 1)%Z with (Z.of_nat (S (length pre)))
    by lia.
  rewrite slice_from, skipn_past. reflexivity.
Qed.

Lemma parsed_rows_failure (w : world) (row : list str) (e : exn) :
  result_of (parse_row row) w = Raise e -> parsed_rows w [row] = [].
Proof. intros H. unfold parsed_rows. cbn [flat_map]. rewrite H. reflexivity. Qed.

(** C9.  When the token after the first [in] begins with an opening
    parenthesis, or [in] is the last token, [get_level] collects no word,
    the joined level name is empty and indexing it raises [IndexError]; a
    row whose last line is such a line fails to parse and [main] drops it. *)
Theorem get_level_without_words_fails (line : str) (w : world) :
  no_level_words line ->
  result_of (get_level line) w = Raise IndexError /\
  forall time content reactions,
    last_line content = line ->
    (exists e, result_of (parse_row [time; content; reactions]) w = Raise e) /\
    result_of (main [[time; content; reactions]]) w = Return [].
Proof.
  intros (pre & post & Htok & Hpre & Hpost).
  assert (Hlevel : result_of (get_level line) w = Raise IndexError).
  { rewrite (get_level_after_in line w pre post Htok Hpre).
    destruct Hpost as [->|(rest & post' & ->)]; [reflexivity|].
    rewrite level_loop_cons. reflexivity. }
  split; [exact Hlevel|].
  intros time content reactions Hline.
  assert (Hrow : exists e, result_of (parse_row [time; content; reactions]) w
                           = Raise e).
  { rewrite parse_row_result, parse_content_result, item_last_line, Hline, Hlevel.
    destruct (result_of (get_usernames line) w)
      as [[|era [|mode [|player1 [|player2 [|]]]]]|]; try (eexists; reflexivity).
    destruct (value_eqb mode (VInt 1)).
    - destruct (result_of (get_country_and_platform line) w) as [[? ?]|];
        eexists; reflexivity.
    - eexists; reflexivity. }
  split; [exact Hrow|].
  destruct Hrow as [e He].
  rewrite main_result, (parsed_rows_failure w _ e He). reflexivity.
Qed.

Lemma get_level_without_words_fails_witness :
  result_of (get_level (lit "Bob beat Al 7 in (France)")) initial_world
    = Raise IndexError /\
  forall time content reactions,
    last_line content = lit "Bob beat Al 7 in (France)" ->
    (exists e, result_of (parse_row [time; content; reactions]) initial_world
               = Raise e) /\
    result_of (main [[time; content; reactions]]) initial_world = Return [].
Proof.
  apply (get_level_without_words_fails
           (lit "Bob beat Al 7 in (France)") initial_world).
  exists [lit "Bob"; lit "beat"; lit "Al"; lit "7"], [lit "(France)"].
  split; [reflexivity|]. split.
  - vm_compute. intuition discriminate.
  - right. exists (lit "France)"), []. reflexivity.
Defined.

(** ** Country and platform extractor *)

(** A sentence that ends with the annotation [(ann)], where [ann]
    without its spaces is [country-platform]: the outcome is decided by the
    search of [platform] in the alias table. *)
Lemma get_country_and_platform_annotation
      (pre ann country platform : str) (w : world) :
  ~ In (ch "(") ann ->
  filter (fun x => negb (N.eqb x (ch " "))) ann = country ++ ch "-" :: platform ->
  ~ In (ch "-") country ->
  ~ In (ch "-") platform ->
  result_of (get_country_and_platform (pre ++ ch "(" :: ann ++ [ch ")"])) w =
  match local (find_platform (platforms w) platform None) with
  | Raise e => Raise e
  | Return name => Return (VStr country, VStr name)
  end.
Proof.
  intros Hann Hfilter Hcountry Hplatform.
  rewrite get_country_and_platform_result.
  replace (pre ++ ch "(" :: ann ++ [ch ")"])
    with ((pre ++ ch "(" :: ann) ++ [ch ")"])
    by (rewrite <- app_assoc; reflexivity).
  rewrite item_last, slice_drop_last. rewrite N.eqb_refl. cbn [negb].
  rewrite (item_minus_one (split_sep (ch "(") (pre ++ ch "(" :: ann))
                          ([] : str))
    by apply split_sep_not_nil.
  rewrite split_sep_last by assumption.
  cbv zeta. rewrite Hfilter, split_sep_two by assumption.
  reflexivity.
Qed.

(** No alias of the module's table is the empty string. *)
Lemma no_empty_alias (name : str) (aliases : list str) :
  In (name, aliases) module_platforms -> ~ In [] aliases.
Proof.
  unfold module_platforms. cbn [In].
  intros H Hin.
  repeat (destruct H as [H|H];
          [injection H as <- <-; cbn in Hin; intuition discriminate|]).
  exact H.
Qed.

(** C8 (as amended).  The aliases of [ios] are [:ios:] and the
    one-character string U+F8FF, and no alias of the table is the empty
    string.  For a sentence whose annotation has two dash-separated
    segments, the platform segment being one of the two aliases of [ios],
    [get_country_and_platform] returns the country segment and the
    platform [ios]. *)
Theorem ios_aliases_normalize_to_ios
        (pre ann country platform : str) (w : world) :
  platforms w = module_platforms ->
  ~ In (ch "(") ann ->
  filter (fun x => negb (N.eqb x (ch " "))) ann = country ++ ch "-" :: platform ->
  ~ In (ch "-") country ->
  platform = lit ":ios:" \/ platform = [0xF8FF%N] ->
  result_of (get_country_and_platform (pre ++ ch "(" :: ann ++ [ch ")"])) w
    = Return (VStr country, VStr (lit "ios")) /\
  (forall name aliases, In (name, aliases) module_platforms -> ~ In [] aliases) /\
  in_list platform [lit ":ios:"; [0xF8FF%N]] = true /\
  In (lit "ios", [lit ":ios:"; [0xF8FF%N]]) module_platforms.
Proof.
  intros Hw Hann Hfilter Hcountry Hplatform.
  assert (Hdash : ~ In (ch "-") platform)
    by (destruct Hplatform as [->| ->]; vm_compute; intuition discriminate).
  rewrite (get_country_and_platform_annotation pre ann country platform w)
    by assumption.
  rewrite Hw.
  repeat split.
  - destruct Hplatform as [->| ->]; reflexivity.
  - exact no_empty_alias.
  - destruct Hplatform as [->| ->]; reflexivity.
  - right; left; reflexivity.
Qed.

Lemma ios_aliases_normalize_to_ios_witness :
  result_of (get_country_and_platform
               (lit "`Alice` increased score to 7 in Desert "
                ++ ch "(" :: (lit "France - " ++ [0xF8FF%N]) ++ [ch ")"]))
            initial_world
    = Return (VStr (lit "France"), VStr (lit "ios")) /\
  (forall name aliases, In (name, aliases) module_platforms -> ~ In [] aliases) /\
  in_list [0xF8FF%N] [lit ":ios:"; [0xF8FF%N]] = true /\
  In (lit "ios", [lit ":ios:"; [0xF8FF%N]]) module_platforms.
Proof.
  apply (ios_aliases_normalize_to_ios
           (lit "`Alice` increased score to 7 in Desert ")
           (lit "France - " ++ [0xF8FF%N]) (lit "France") [0xF8FF%N]
           initial_world).
  - reflexivity.
  - vm_compute. intuition discriminate.
  - reflexivity.
  - vm_compute. intuition discriminate.
  - right. reflexivity.
Defined.

(** C8, refuted as stated.  The annotation below has an empty platform
    segment: the empty string is in no alias list, so the platform is not
    normalized to [ios] (the call does not even return). *)
Lemma empty_platform_is_not_ios :
  split_sep (ch "-") (lit "France-") = [lit "France"; []] /\
  find_platform module_platforms [] None = None /\
  result_of (get_country_and_platform
               (lit "`Alice` increased score to 7 in Desert (France -)"))
            initial_world
    = Raise UnboundLocalError /\
  result_of (get_country_and_platform
               (lit "`Alice` increased score to 7 in Desert (France -)"))
            initial_world
    <> Return (VStr (lit "France"), VStr (lit "ios")) /\
  forall country,
    result_of (get_country_and_platform
                 (lit "`Alice` increased score to 7 in Desert (France -)"))
              initial_world
    <> Return (country, VStr (lit "ios")).
Proof.
  repeat split; discriminate.
Qed.

(** C1, at the failing input.  The platform segment [xbox] matches no
    alias: the loop over the table ends without assigning [platform_name],
    reading it raises [UnboundLocalError], so [get_country_and_platform]
    does not return the raw token, the row fails to parse and [main] drops
    it. *)
Theorem unrecognized_platform_raises :
  find_platform module_platforms (lit "xbox") None = None /\
  result_of (get_country_and_platform
               (lit "`Alice` increased score to 7 in Desert (France - xbox)"))
            initial_world
    = Raise UnboundLocalError /\
  result_of (parse_row [lit "2023-05-01T10:00";
                        lit "`Alice` increased score to 7 in Desert (France - xbox)";
                        lit "0"]) initial_world
    = Raise UnboundLocalError /\
  result_of (main [[lit "2023-05-01T10:00";
                    lit "`Alice` increased score to 7 in Desert (France - xbox)";
                    lit "0"]]) initial_world
    = Return [].
Proof. repeat split. Qed.

(** X8.  Whenever the platform segment matches no alias of the table, the
    call raises [UnboundLocalError]. *)
Lemma get_country_and_platform_unmatched
      (pre ann country platform : str) (w : world) :
  ~ In (ch "(") ann ->
  filter (fun x => negb (N.eqb x (ch " "))) ann = country ++ ch "-" :: platform ->
  ~ In (ch "-") country ->
  ~ In (ch "-") platform ->
  (forall name aliases, In (name, aliases) (platforms w) -> ~ In platform aliases) ->
  result_of (get_country_and_platform (pre ++ ch "(" :: ann ++ [ch ")"])) w
    = Raise UnboundLocalError.
Proof.
  intros Hann Hfilter Hcountry Hplatform Hnone.
  rewrite (get_country_and_platform_annotation pre ann country platform w)
    by assumption.
  assert (Hfind : find_platform (platforms w) platform None = None).
  { induction (platforms w) as [|[name aliases] items IH]; [reflexivity|].
    cbn [find_platform].
    assert (E : in_list platform aliases = false).
    { unfold in_list. apply not_true_is_false. intros Hex.
      apply existsb_exists in Hex as (alias & Hin & Heq).
      apply str_eqb_eq in Heq. subst alias.
      exact (Hnone name aliases (or_introl eq_refl) Hin). }
    rewrite E. apply IH. intros name' aliases' Hin.
    apply (Hnone name' aliases'). right. exact Hin. }
  rewrite Hfind. reflexivity.
Qed.

(** ** The two-player sentences of era 2 *)

Lemma join_close_last (sep : str) (words : list str) :
  words <> [] -> join sep (close_last words) = join sep words ++ [ch "`"].
Proof.
  induction words as [|wd rest IH]; [congruence|]. intros _.
  destruct rest as [|wd' rest']; [reflexivity|].
  change (close_last (wd :: wd' :: rest')) with (wd :: close_last (wd' :: rest')).
  change (join sep (wd :: wd' :: rest'))
    with (wd ++ sep ++ join sep (wd' :: rest')).
  assert (Hne : close_last (wd' :: rest') <> [])
    by (destruct rest'; discriminate).
  destruct (close_last (wd' :: rest')) as [|x xs] eqn:E; [congruence|].
  change (join sep (wd :: x :: xs)) with (wd ++ sep ++ join sep (x :: xs)).
  rewrite IH by discriminate. rewrite <- !app_assoc. reflexivity.
Qed.

Lemma join_quote_words (words : list str) :
  words <> [] ->
  join (lit " ") (quote_words words)
  = ch "`" :: join (lit " ") words ++ [ch "`"].
Proof.
  intros H. unfold quote_words.
  destruct words as [|wd rest]; [congruence|].
  rewrite join_close_last by discriminate.
  destruct rest; reflexivity.
Qed.

Lemma quote_words_not_nil (words : list str) :
  words <> [] -> quote_words words <> [].
Proof.
  destruct words as [|wd [|wd' rest]]; [congruence | discriminate | discriminate].
Qed.

Lemma two_player_sentence_tokens (A B score : str) (words : list str) :
  words <> [] ->
  two_player_sentence A B score (join (lit " ") words)
  = join (lit " ") (sentence_tokens A B score words).
Proof.
  intros H. unfold sentence_tokens.
  rewrite join_app by (discriminate || (intros E; apply app_eq_nil in E; destruct E; discriminate)).
  rewrite join_app by (discriminate || apply quote_words_not_nil; assumption).
  rewrite join_quote_words by assumption.
  generalize (join (lit " ") words). intros level.
  unfold two_player_sentence. cbn [join].
  repeat (rewrite <- !app_assoc; cbn [app lit map list_ascii_of_string]).
  reflexivity.
Qed.

Lemma token_cons (c : char) (s : str) :
  isspace c = false -> word s -> token (c :: s).
Proof.
  intros Hc Hs. split; [discriminate|].
  unfold word. cbn [forallb]. rewrite Hc. exact Hs.
Qed.

Lemma token_no_space (t : str) (c : char) :
  token t -> isspace c = true -> ~ In c t.
Proof.
  intros [_ Hw] Hc Hin. unfold word in Hw.
  rewrite forallb_forall in Hw. specialize (Hw c Hin).
  rewrite Hc in Hw. discriminate.
Qed.

Lemma close_last_Forall (P : str -> Prop) (words : list str) :
  (forall wd, P wd -> P (wd ++ [ch "`"])) ->
  Forall P words -> Forall P (close_last words).
Proof.
  intros Hclose. induction 1 as [|wd rest Hwd Hrest IH]; [constructor|].
  destruct rest as [|wd' rest'].
  - constructor; [apply Hclose; assumption | constructor].
  - change (close_last (wd :: wd' :: rest'))
      with (wd :: close_last (wd' :: rest')).
    constructor; assumption.
Qed.

Lemma quote_words_tokens (words : list str) :
  Forall token words -> Forall token (quote_words words).
Proof.
  intros H. unfold quote_words. apply close_last_Forall.
  - intros wd [Hne Hw]. split.
    + destruct wd; discriminate.
    + apply word_app; [assumption | reflexivity].
  - destruct H as [|wd rest [Hne Hw] Hrest]; [constructor|].
    constructor; [|assumption].
    apply token_cons; [reflexivity | assumption].
Qed.

Lemma quote_words_level_words (words : list str) :
  Forall token words ->
  Forall (fun wd => hd_error wd <> Some (ch "(")) (tl words) ->
  Forall level_word (quote_words words).
Proof.
  intros Htok Hhd. unfold quote_words. apply close_last_Forall.
  - intros wd [Hne Hwd]. destruct wd as [|c wd]; [congruence|].
    split; [discriminate | exact Hwd].
  - destruct Htok as [|wd rest Hwd Hrest]; [constructor|].
    cbn [open_first tl] in *. constructor.
    + split; discriminate.
    + clear Hwd. induction Hrest as [|wd' rest' [Hne _] _ IH];
        [constructor|].
      inversion Hhd; subst. constructor; [split; assumption | auto].
Qed.

(** [level_loop] keeps the words up to the first token that starts with
    an opening parenthesis. *)
Lemma level_loop_collect (words rest level_name : list str) (w : world) :
  Forall level_word words ->
  result_of (level_loop (words ++ rest) level_name) w
  = result_of (level_loop rest (level_name ++ words)) w.
Proof.
  intros H. revert level_name.
  induction H as [|wd words [Hne Hhd] _ IH]; intros level_name.
  - rewrite app_nil_r. reflexivity.
  - cbn [app]. rewrite level_loop_cons.
    destruct wd as [|c wd]; [congruence|].
    rewrite item_first.
    destruct (N.eqb_spec c (ch "(")) as [->|_]; [exfalso; apply Hhd; reflexivity|].
    rewrite IH, <- app_assoc. reflexivity.
Qed.

Lemma unquote_quoted (body : str) :
  unquote (ch "`" :: body ++ [ch "`"]) = Return body.
Proof.
  unfold unquote.
  rewrite item_first.
  rewrite N.eqb_refl.
  change (ch "`" :: body ++ [ch "`"]) with ((ch "`" :: body) ++ [ch "`"]) at 1.
  rewrite item_last, N.eqb_refl, slice_strip. reflexivity.
Qed.

Lemma in_join (c : char) (sep : str) (l : list str) :
  In c (join sep l) -> In c sep \/ exists t, In t l /\ In c t.
Proof.
  induction l as [|x rest IH]; [intros []|].
  destruct rest as [|y rest'].
  - intros H. right. exists x. split; [left; reflexivity | exact H].
  - change (join sep (x :: y :: rest')) with (x ++ sep ++ join sep (y :: rest')).
    intros H. apply in_app_or in H as [H|H].
    + right. exists x. split; [left; reflexivity | exact H].
    + apply in_app_or in H as [H|H]; [left; exact H|].
      destruct (IH H) as [Hsep|(t & Ht & Hc)]; [left; exact Hsep|].
      right. exists t. split; [right; exact Ht | exact Hc].
Qed.

(** A sentence made of tokens joined by single spaces is its own last
    line. *)
Lemma last_line_join (toks : list str) :
  Forall token toks -> last_line (join (lit " ") toks) = join (lit " ") toks.
Proof.
  intros H. unfold last_line. rewrite split_sep_no_sep; [reflexivity|].
  intros Hin. apply in_join in Hin as [Hsp|(t & Ht & Hc)].
  - cbn in Hsp. destruct Hsp as [Hsp|[]]. discriminate.
  - rewrite Forall_forall in H.
    exact (token_no_space t 10%N (H t Ht) eq_refl Hc).
Qed.

Lemma sentence_tokens_are_tokens (A B score : str) (words : list str) :
  word A -> word B -> token score -> Forall token words ->
  Forall token (sentence_tokens A B score words).
Proof.
  intros HA HB Hscore Hwords. unfold sentence_tokens.
  assert (Hq : forall X, word X -> token (ch "`" :: X ++ [ch "`"])).
  { intros X HX. apply token_cons; [reflexivity|].
    apply word_app; [assumption | reflexivity]. }
  apply Forall_app; split.
  - repeat match goal with
           | |- Forall _ (_ :: _) => constructor
           | |- Forall _ [] => constructor
           end;
      try (apply Hq; assumption); try assumption;
      split; (discriminate || reflexivity).
  - apply Forall_app; split; [apply quote_words_tokens; assumption|].
    constructor; [|constructor]. split; (discriminate || reflexivity).
Qed.

(** C5.  For every well-formed two-player sentence of era 2,
    [`A` and `B` increased their score to SCORE in `LEVEL` (US-android)]
    -- the names [A] and [B] without white space, the score a token other
    than [in], the level name one or more words separated by single spaces,
    none of them but the first starting with an opening parenthesis, and no
    era-1 marker in the sentence -- [parse_content] returns era 2, mode 2,
    the two names, the level name and the score, with country and platform
    absent. *)
Theorem two_player_sentence_parses (A B score : str) (words : list str)
        (w : world) :
  word A -> word B ->
  token score -> score <> lit "in" ->
  words <> [] -> Forall token words ->
  Forall (fun wd => hd_error wd <> Some (ch "(")) (tl words) ->
  contains (lit "(era 1)")
           (two_player_sentence A B score (join (lit " ") words)) = false ->
  result_of (parse_content
               (two_player_sentence A B score (join (lit " ") words))) w
  = Return [VInt 2; VInt 2; VStr A; VStr B;
            VStr (join (lit " ") words); VStr score; VNone; VNone].
Proof.
  intros HA HB Hscore Hin Hne Hwords Hhd Hera.
  pose proof (sentence_tokens_are_tokens A B score words HA HB Hscore Hwords)
    as Htoks.
  rewrite two_player_sentence_tokens in * by assumption.
  set (line := join (lit " ") (sentence_tokens A B score words)) in *.
  assert (Hsplit : split_ws line = sentence_tokens A B score words)
    by (apply split_ws_join; assumption).
  assert (Husers : result_of (get_usernames line) w
                   = Return [VInt 2; VInt 2; VStr A; VStr B]).
  { rewrite get_usernames_result, Hera. cbv zeta. rewrite Hsplit.
    unfold sentence_tokens. cbn [app].
    rewrite item_first, item_second, item_third, !unquote_quoted.
    change (str_eqb (lit "and") (lit "and")) with true. cbv iota.
    destruct (contains (lit "(2 players mode)") line); reflexivity. }
  assert (Hlevel : result_of (get_level line) w
                   = Return (join (lit " ") words)).
  { rewrite (get_level_after_in line w
               [ch "`" :: A ++ [ch "`"]; lit "and"; ch "`" :: B ++ [ch "`"];
                lit "increased"; lit "their"; lit "score"; lit "to"; score]
               (quote_words words ++ [lit "(US-android)"])).
    - rewrite level_loop_collect
        by (apply quote_words_level_words; assumption).
      rewrite level_loop_cons. cbn [app].
      change (item (lit "(US-android)") 0) with (Return (A := char) (ch "(")).
      cbv beta iota. rewrite N.eqb_refl, join_quote_words by assumption.
      apply unquote_quoted.
    - exact Hsplit.
    - cbn [In]. intros [H|[H|[H|[H|[H|[H|[H|[H|[]]]]]]]]];
        try discriminate. apply Hin. exact H. }
  assert (Hsc : result_of (get_score line) w = Return score).
  { apply (get_score_before_in line w
             [ch "`" :: A ++ [ch "`"]; lit "and"; ch "`" :: B ++ [ch "`"];
              lit "increased"; lit "their"; lit "score"; lit "to"]
             score (quote_words words ++ [lit "(US-android)"])).
    - exact Hsplit.
    - cbn [In app]. intros [H|[H|[H|[H|[H|[H|[H|[H|[]]]]]]]]];
        try discriminate. apply Hin. exact H. }
  assert (Hlast : last_line line = line)
    by (apply last_line_join; assumption).
  rewrite parse_content_result, item_last_line, Hlast, Husers. cbn [value_eqb Z.eqb]. rewrite Hlevel, Hsc. reflexivity.
Qed.

Lemma two_player_sentence_parses_witness :
  result_of (parse_content
               (two_player_sentence (lit "Al") (lit "Bo") (lit "42")
                                    (join (lit " ") [lit "Lost"; lit "Maze"])))
            initial_world
  = Return [VInt 2; VInt 2; VStr (lit "Al"); VStr (lit "Bo");
            VStr (join (lit " ") [lit "Lost"; lit "Maze"]); VStr (lit "42");
            VNone; VNone].
Proof.
  apply (two_player_sentence_parses (lit "Al") (lit "Bo") (lit "42")
                                    [lit "Lost"; lit "Maze"] initial_world).
  - reflexivity.
  - reflexivity.
  - split; [discriminate | reflexivity].
  - discriminate.
  - discriminate.
  - repeat constructor; discriminate.
  - repeat constructor. discriminate.
  - reflexivity.
Defined.

(** * Further properties of the module *)

(** ** Tokens and indexing *)

Lemma split_ws_aux_tokens (s : str) :
  word (fst (split_ws_aux s)) /\ Forall token (snd (split_ws_aux s)).
Proof.
  induction s as [|c s [IHw IHt]]; [split; [reflexivity | constructor]|].
  cbn [split_ws_aux]. destruct (split_ws_aux s) as [wd ws]. cbn [fst snd] in *.
  destruct (isspace c) eqn:Hc; cbn [fst snd].
  - split; [reflexivity|]. destruct wd as [|d wd]; [exact IHt|].
    constructor; [|exact IHt]. split; [discriminate | exact IHw].
  - split; [|exact IHt]. unfold word. cbn [forallb]. rewrite Hc. exact IHw.
Qed.

(** Every token of [s.split()] is a non-empty string without white space. *)
Lemma split_ws_tokens (s : str) : Forall token (split_ws s).
Proof.
  unfold split_ws. destruct (split_ws_aux_tokens s) as [Hw Ht].
  destruct (split_ws_aux s) as [wd ws]. cbn [fst snd] in *.
  destruct wd as [|d wd]; [exact Ht|].
  constructor; [|exact Ht]. split; [discriminate | exact Hw].
Qed.

Lemma item_In {A : Type} (l : list A) (i : Z) (x : A) :
  item l i = Return x -> In x l.
Proof.
  unfold item. destruct (norm_index (length l) i) as [k|]; [|discriminate].
  destruct (nth_error l k) as [y|] eqn:E; [|discriminate].
  intros H. injection H as <-. exact (nth_error_In l k E).
Qed.

Lemma item_raises_index_error {A : Type} (l : list A) (i : Z) (e : exn) :
  item l i = Raise e -> e = IndexError.
Proof.
  unfold item. destruct (norm_index (length l) i) as [k|];
    [destruct (nth_error l k)|]; congruence.
Qed.

Lemma item_short {A : Type} (l : list A) (n : nat) (i : Z) :
  i = Z.of_nat n -> length l <= n -> item l i = Raise IndexError.
Proof.
  intros -> Hlen. unfold item, norm_index.
  assert (E1 : (Z.of_nat n <? 0)%Z = false) by (apply Z.ltb_ge; lia).
  assert (E3 : (Z.of_nat n <? Z.of_nat (length l))%Z = false)
    by (apply Z.ltb_ge; lia).
  rewrite E1, E3, andb_false_r. reflexivity.
Qed.

Lemma item_long {A : Type} (l : list A) (n : nat) (i : Z) :
  i = Z.of_nat n -> n < length l -> exists x, item l i = Return x /\ In x l.
Proof.
  intros -> Hlen. destruct (nth_error l n) as [x|] eqn:E.
  - exists x. split; [apply item_nth; exact E | exact (nth_error_In l n E)].
  - apply nth_error_None in E. lia.
Qed.

Lemma slice_from_one {A : Type} (l : list A) :
  slice l (Some 1%Z) None = tl l.
Proof.
  change (slice l (Some 1%Z) None) with (slice l (Some (Z.of_nat 1)) None).
  rewrite slice_from. destruct l; reflexivity.
Qed.

Lemma word_firstn (n : nat) (s : str) : word s -> word (firstn n s).
Proof.
  unfold word. intros H. rewrite <- (firstn_skipn n s), forallb_app in H.
  apply andb_true_iff in H. tauto.
Qed.

Lemma word_skipn (n : nat) (s : str) : word s -> word (skipn n s).
Proof.
  unfold word. intros H. rewrite <- (firstn_skipn n s), forallb_app in H.
  apply andb_true_iff in H. tauto.
Qed.

(** On a non-empty string [unquote] returns: the string itself, or the
    string without its first and last character when both are
    back-quotes. *)
Lemma unquote_returns (raw : str) :
  raw <> [] ->
  exists name,
    unquote raw = Return name /\
    (name = raw \/ name = slice raw (Some 1%Z) (Some (-1)%Z)).
Proof.
  intros Hne. unfold unquote. destruct raw as [|c raw]; [congruence|].
  rewrite item_first.
  rewrite (item_minus_one (c :: raw) c) by discriminate.
  destruct (N.eqb c (ch "`")); [|eexists; split; [reflexivity | left; reflexivity]].
  destruct (N.eqb (last (c :: raw) c) (ch "`")); eexists;
    (split; [reflexivity|]); [right | left]; reflexivity.
Qed.

Lemma unquote_word (raw name : str) :
  word raw -> unquote raw = Return name -> word name.
Proof.
  intros Hw H. destruct raw as [|c raw]; [discriminate|].
  destruct (unquote_returns (c :: raw)) as (name' & H' & [->| ->]);
    [discriminate | | ]; rewrite H in H'; injection H' as ->.
  - exact Hw.
  - unfold slice. apply word_firstn, word_skipn. exact Hw.
Qed.

(** ** Player, era and mode extractor *)

Lemma remaining_tokens_are_tokens (content : str) :
  Forall token (remaining_tokens content).
Proof.
  unfold remaining_tokens. pose proof (split_ws_tokens content) as H.
  destruct (contains (lit "(era 1)") content); [|exact H].
  rewrite <- (firstn_skipn 2 (split_ws content)) in H.
  apply Forall_app in H. tauto.
Qed.

(** X1.  [get_usernames] needs three tokens after the era handling, also
    for a one-player sentence: with fewer it raises [IndexError], with three
    or more it returns, and it raises nothing else. *)
Theorem get_usernames_needs_three_tokens (content : str) (w : world) :
  (length (remaining_tokens content) < 3 <->
   result_of (get_usernames content) w = Raise IndexError) /\
  (3 <= length (remaining_tokens content) <->
   exists l, result_of (get_usernames content) w = Return l).
Proof.
  rewrite get_usernames_result_remaining.
  pose proof (remaining_tokens_are_tokens content) as Htok.
  rewrite Forall_forall in Htok.
  destruct (Nat.lt_ge_cases (length (remaining_tokens content)) 3) as [Hlt|Hge].
  - assert (Hraise :
              match item (remaining_tokens content) 0 with
              | Raise e => Raise e
              | Return raw0 =>
                  match item (remaining_tokens content) 2 with
                  | Raise e => Raise e
                  | Return raw2 => @Raise (list value) IndexError
                  end
              end = Raise IndexError).
    { rewrite (item_short (remaining_tokens content) 2 2%Z eq_refl) by lia.
      destruct (item (remaining_tokens content) 0) as [raw0|e] eqn:E0;
        [reflexivity|].
      rewrite (item_raises_index_error _ _ _ E0). reflexivity. }
    rewrite (item_short (remaining_tokens content) 2 2%Z eq_refl) in * by lia.
    split.
    + split; [intros _; exact Hraise | intros _; exact Hlt].
    + split; [lia|]. intros [l Hl]. rewrite Hraise in Hl. discriminate.
  - destruct (item_long (remaining_tokens content) 0 0%Z eq_refl)
      as (raw0 & -> & Hin0); [lia|].
    destruct (item_long (remaining_tokens content) 2 2%Z eq_refl)
      as (raw2 & -> & Hin2); [lia|].
    destruct (item_long (remaining_tokens content) 1 1%Z eq_refl)
      as (token1 & -> & _); [lia|].
    destruct (unquote_returns raw0 (proj1 (Htok raw0 Hin0))) as (p1 & -> & _).
    destruct (unquote_returns raw2 (proj1 (Htok raw2 Hin2))) as (p2 & -> & _).
    split.
    + split; [lia | discriminate].
    + split; [intros _; eexists; reflexivity | intros _; exact Hge].
Qed.

Lemma split_ws_era_marker (s : str) :
  split_ws (lit "(era 1) " ++ s) = lit "(era" :: lit "1)" :: split_ws s.
Proof.
  change (lit "(era 1) " ++ s)
    with (lit "(era" ++ 32%N :: (lit "1)" ++ 32%N :: s)).
  rewrite !split_ws_token_space;
    try reflexivity; split; (discriminate || reflexivity).
Qed.

Lemma contains_marker_after_era (s : str) :
  contains (lit "(2 players mode)") (lit "(era 1) " ++ s)
  = contains (lit "(2 players mode)") s.
Proof. reflexivity. Qed.

(** X2.  Before a sentence without era marker, the prefix [(era 1) ]
    changes the era from 2 to 1 and nothing else: the two marker tokens are
    dropped, and mode and player names (or the failure) are those of the
    sentence alone. *)
Theorem era_marker_only_changes_era (s : str) (w : world) :
  contains (lit "(era 1)") s = false ->
  result_of (get_usernames (lit "(era 1) " ++ s)) w =
  match result_of (get_usernames s) w with
  | Return (era :: fields) => Return (VInt 1 :: fields)
  | Return [] => Return []
  | Raise e => Raise e
  end /\
  (forall fields, result_of (get_usernames s) w = Return fields ->
                  hd_error fields = Some (VInt 2)).
Proof.
  intros Hera.
  rewrite !get_usernames_result_remaining. unfold remaining_tokens.
  rewrite Hera, contains_marker_after_era, split_ws_era_marker.
  change (contains (lit "(era 1)") (lit "(era 1) " ++ s)) with true.
  cbn [skipn].
  destruct (item (split_ws s) 0); [|split; [reflexivity | discriminate]].
  destruct (item (split_ws s) 2); [|split; [reflexivity | discriminate]].
  destruct (unquote a); [|split; [reflexivity | discriminate]].
  destruct (unquote a0); [|split; [reflexivity | discriminate]].
  destruct (item (split_ws s) 1); [|split; [reflexivity | discriminate]].
  split; [reflexivity|]. intros fields H. injection H as <-. reflexivity.
Qed.

Lemma era_marker_only_changes_era_witness :
  result_of (get_usernames (lit "(era 1) " ++ lit "`Al` and `Bo` scored")) initial_world =
  match result_of (get_usernames (lit "`Al` and `Bo` scored")) initial_world with
  | Return (era :: fields) => Return (VInt 1 :: fields)
  | Return [] => Return []
  | Raise e => Raise e
  end /\
  (forall fields,
      result_of (get_usernames (lit "`Al` and `Bo` scored")) initial_world
      = Return fields ->
      hd_error fields = Some (VInt 2)).
Proof.
  apply (era_marker_only_changes_era (lit "`Al` and `Bo` scored") initial_world).
  reflexivity.
Defined.

(** ** Country and platform extractor, all cases *)

(** A sentence that ends with the annotation [(ann)]: the outcome is
    decided by the dash-separated fields of [ann] without its spaces. *)
Lemma get_country_and_platform_fields (pre ann : str) (w : world) :
  ~ In (ch "(") ann ->
  result_of (get_country_and_platform (pre ++ ch "(" :: ann ++ [ch ")"])) w =
  match split_sep (ch "-") (filter (fun x => negb (N.eqb x (ch " "))) ann) with
  | [country] => Return (VStr country, VNone)
  | [country; platform] =>
      match local (find_platform (platforms w) platform None) with
      | Raise e => Raise e
      | Return name => Return (VStr country, VStr name)
      end
  | _ => Raise ValueError
  end.
Proof.
  intros Hann. rewrite get_country_and_platform_result.
  replace (pre ++ ch "(" :: ann ++ [ch ")"])
    with ((pre ++ ch "(" :: ann) ++ [ch ")"])
    by (rewrite <- app_assoc; reflexivity).
  rewrite item_last, slice_drop_last. rewrite N.eqb_refl. cbn [negb].
  rewrite (item_minus_one (split_sep (ch "(") (pre ++ ch "(" :: ann))
                          ([] : str))
    by apply split_sep_not_nil.
  rewrite split_sep_last by assumption. cbv zeta.
  destruct (split_sep (ch "-") (filter (fun x => negb (N.eqb x (ch " "))) ann))
    as [|country [|platform [|third rest]]]; try reflexivity.
Qed.

Lemma count_char_filter (c : char) (keep : char -> bool) (s : str) :
  keep c = true -> count_char c (filter keep s) = count_char c s.
Proof.
  intros Hc. unfold count_char. induction s as [|d s IH]; [reflexivity|].
  cbn [filter]. destruct (N.eqb_spec c d) as [<-|Hne].
  - rewrite Hc. cbn [filter]. rewrite N.eqb_refl. cbn [length]. rewrite IH.
    reflexivity.
  - destruct (keep d); cbn [filter]; rewrite ?(proj2 (N.eqb_neq c d) Hne);
      exact IH.
Qed.

Lemma count_char_zero (c : char) (s : str) :
  count_char c s = 0 <-> ~ In c s.
Proof.
  unfold count_char. induction s as [|d s IH]; [cbn; tauto|].
  cbn [filter In]. destruct (N.eqb_spec c d) as [<-|Hne]; cbn [length].
  - split; [discriminate | intros H; exfalso; apply H; left; reflexivity].
  - rewrite IH. split; [intros H [E|Hin]; [congruence | tauto] | tauto].
Qed.

(** X3.  Without a closing parenthesis as last character there is no
    annotation: [get_country_and_platform] returns [(None, None)] whatever
    else the content holds; on the empty content its first test raises
    [IndexError]. *)
Theorem no_closing_parenthesis_no_annotation (w : world) :
  result_of (get_country_and_platform []) w = Raise IndexError /\
  forall body c,
    c <> ch ")" ->
    result_of (get_country_and_platform (body ++ [c])) w
    = Return (VNone, VNone).
Proof.
  split; [reflexivity|]. intros body c Hc.
  rewrite get_country_and_platform_result, item_last.
  apply N.eqb_neq in Hc. rewrite Hc. reflexivity.
Qed.

Lemma no_closing_parenthesis_no_annotation_witness :
  result_of (get_country_and_platform (lit "Bob beat Al 7 in (Desert" ++ [ch "x"]))
            initial_world
  = Return (VNone, VNone).
Proof.
  apply (proj2 (no_closing_parenthesis_no_annotation initial_world)
               (lit "Bob beat Al 7 in (Desert") (ch "x")).
  discriminate.
Defined.

(** X4.  An annotation without dash is a country only: the country is the
    text after the last opening parenthesis with every space removed (a
    country of several words is run together), and the platform is
    absent. *)
Theorem annotation_without_dash_is_country (pre ann : str) (w : world) :
  ~ In (ch "(") ann ->
  ~ In (ch "-") ann ->
  result_of (get_country_and_platform (pre ++ ch "(" :: ann ++ [ch ")"])) w
  = Return (VStr (filter (fun x => negb (N.eqb x (ch " "))) ann), VNone) /\
  ~ In (ch " ") (filter (fun x => negb (N.eqb x (ch " "))) ann).
Proof.
  intros Hann Hdash. split.
  - rewrite get_country_and_platform_fields by assumption.
    rewrite split_sep_no_sep; [reflexivity|].
    intros Hin. apply filter_In in Hin. tauto.
  - intros Hin. apply filter_In in Hin as [_ H]. discriminate.
Qed.

Lemma annotation_without_dash_is_country_witness :
  result_of (get_country_and_platform
               (lit "`Al` increased score to 7 in Maze "
                ++ ch "(" :: lit "United States" ++ [ch ")"]))
            initial_world
  = Return (VStr (filter (fun x => negb (N.eqb x (ch " "))) (lit "United States")),
            VNone) /\
  ~ In (ch " ") (filter (fun x => negb (N.eqb x (ch " "))) (lit "United States")).
Proof.
  apply (annotation_without_dash_is_country
           (lit "`Al` increased score to 7 in Maze ") (lit "United States")
           initial_world).
  - vm_compute. intuition discriminate.
  - vm_compute. intuition discriminate.
Defined.

(** X5.  An annotation with two or more dashes (a hyphenated country
    before the platform, for instance) cannot be unpacked into country and
    platform: [get_country_and_platform] raises [ValueError]. *)
Theorem annotation_with_two_dashes_fails (pre ann : str) (w : world) :
  ~ In (ch "(") ann ->
  2 <= count_char (ch "-") ann ->
  result_of (get_country_and_platform (pre ++ ch "(" :: ann ++ [ch ")"])) w
  = Raise ValueError.
Proof.
  intros Hann Hcount. rewrite get_country_and_platform_fields by assumption.
  pose proof (split_sep_length (ch "-")
                (filter (fun x => negb (N.eqb x (ch " "))) ann)) as Hlen.
  rewrite count_char_filter in Hlen by reflexivity.
  destruct (split_sep (ch "-") (filter (fun x => negb (N.eqb x (ch " "))) ann))
    as [|country [|platform [|third rest]]]; cbn [length] in Hlen;
    try lia; reflexivity.
Qed.

Lemma annotation_with_two_dashes_fails_witness :
  result_of (get_country_and_platform
               (lit "`Al` increased score to 7 in Maze "
                ++ ch "(" :: lit "Guinea-Bissau - web" ++ [ch ")"]))
            initial_world
  = Raise ValueError.
Proof.
  apply (annotation_with_two_dashes_fails
           (lit "`Al` increased score to 7 in Maze ")
           (lit "Guinea-Bissau - web") initial_world).
  - vm_compute. intuition discriminate.
  - vm_compute. lia.
Defined.

Lemma find_platform_some (items : list (str * list str)) (platform name : str) :
  find_platform items platform None = Some name ->
  exists aliases, In (name, aliases) items /\ In platform aliases.
Proof.
  induction items as [|[n aliases] items IH]; [discriminate|].
  cbn [find_platform]. destruct (in_list platform aliases) eqn:E.
  - intros H. injection H as <-. exists aliases. split; [left; reflexivity|].
    unfold in_list in E. apply existsb_exists in E as (alias & Hin & Heq).
    apply str_eqb_eq in Heq. subst alias. exact Hin.
  - intros H. destruct (IH H) as (aliases' & Hin & Hp).
    exists aliases'. split; [right; exact Hin | exact Hp].
Qed.

Lemma in_join_intro (c : char) (sep t : str) (l : list str) :
  In t l -> In c t -> In c (join sep l).
Proof.
  induction l as [|x rest IH]; [intros []|].
  intros [->|Hin] Hc.
  - destruct rest; [exact Hc|].
    change (In c (t ++ sep ++ join sep (s :: rest))).
    apply in_or_app. left. exact Hc.
  - destruct rest as [|y rest']; [destruct Hin|].
    change (In c (x ++ sep ++ join sep (y :: rest'))).
    apply in_or_app. right. apply in_or_app. right. exact (IH Hin Hc).
Qed.

(** A character of a field of [s.split(sep)] is a character of [s]. *)
Lemma split_sep_field_chars (sep c : char) (s field : str) :
  In field (split_sep sep s) -> In c field -> In c s.
Proof.
  intros Hf Hc. rewrite <- (split_sep_join sep s).
  exact (in_join_intro c [sep] field (split_sep sep s) Hf Hc).
Qed.

(** The aliases of the module's table: each is found under the name of
    its entry, and none contains a dash, a parenthesis or white space. *)
Lemma find_platform_listed (name : str) (aliases : list str) (platform : str) :
  In (name, aliases) module_platforms ->
  In platform aliases ->
  find_platform module_platforms platform None = Some name /\
  ~ In (ch "-") platform /\ ~ In (ch "(") platform /\ token platform.
Proof.
  intros Hentry Halias.
  unfold module_platforms in Hentry. cbn [In] in Hentry.
  repeat (destruct Hentry as [Hentry|Hentry];
          [injection Hentry as <- <-; cbn [In] in Halias;
           repeat (destruct Halias as [<-|Halias];
                   [split; [reflexivity|];
                    split; [vm_compute; intuition discriminate|];
                    split; [vm_compute; intuition discriminate|];
                    split; [discriminate | reflexivity]|]);
           destruct Halias|]).
  destruct Hentry.
Qed.

(** X6.  Every alias listed in the module's table is replaced by the
    canonical name of its entry: for a sentence whose annotation has two
    dash-separated segments, the second being an alias of the entry [name],
    [get_country_and_platform] returns the country segment and [name]. *)
Theorem listed_alias_gives_canonical_name
        (pre ann country platform name : str) (aliases : list str) (w : world) :
  platforms w = module_platforms ->
  In (name, aliases) module_platforms ->
  In platform aliases ->
  ~ In (ch "(") ann ->
  filter (fun x => negb (N.eqb x (ch " "))) ann = country ++ ch "-" :: platform ->
  ~ In (ch "-") country ->
  result_of (get_country_and_platform (pre ++ ch "(" :: ann ++ [ch ")"])) w
  = Return (VStr country, VStr name).
Proof.
  intros Hw Hentry Halias Hann Hfilter Hcountry.
  destruct (find_platform_listed name aliases platform Hentry Halias)
    as (Hfind & Hdash & _).
  rewrite (get_country_and_platform_annotation pre ann country platform w)
    by assumption.
  rewrite Hw, Hfind. reflexivity.
Qed.

Lemma listed_alias_gives_canonical_name_witness :
  result_of (get_country_and_platform
               (lit "`Al` increased score to 7 in Maze "
                ++ ch "(" :: lit "Peru - <:android:" ++ [ch ")"]))
            initial_world
  = Return (VStr (lit "Peru"), VStr (lit "android")).
Proof.
  apply (listed_alias_gives_canonical_name
           (lit "`Al` increased score to 7 in Maze ") (lit "Peru - <:android:")
           (lit "Peru") (lit "<:android:") (lit "android")
           [lit "Android"; lit ":android:"; lit "<:android:"] initial_world).
  - reflexivity.
  - left. reflexivity.
  - right. right. left. reflexivity.
  - vm_compute. intuition discriminate.
  - reflexivity.
  - vm_compute. intuition discriminate.
Defined.

(** X7.  Whatever [get_country_and_platform] returns is either no
    annotation at all, or the first field of the annotation as the country
    -- a string without space and without dash -- together with: no
    platform, when the annotation has that one field only; or, when it has
    two fields, a canonical name (a key) of the table, namely of an entry
    whose alias list contains the second field. *)
Theorem platform_is_canonical_or_absent (content : str) (w : world)
        (country platform : value) :
  result_of (get_country_and_platform content) w = Return (country, platform) ->
  (country = VNone /\ platform = VNone) \/
  exists c,
    country = VStr c /\ ~ In (ch " ") c /\ ~ In (ch "-") c /\
    ((platform = VNone /\ annotation_fields content = [c]) \/
     exists name aliases segment,
       platform = VStr name /\
       annotation_fields content = [c; segment] /\
       In (name, aliases) (platforms w) /\
       In segment aliases /\
       In name (canonical_names (platforms w))).
Proof.
  rewrite get_country_and_platform_result.
  destruct (item content (-1)) as [last|]; [|discriminate].
  destruct (negb (N.eqb last (ch ")")));
    [intros H; injection H as <- <-; left; split; reflexivity|].
  rewrite (item_minus_one (split_sep (ch "(") (slice content None (Some (-1)%Z)))
                          ([] : str))
    by apply split_sep_not_nil.
  cbv zeta. fold (annotation_fields content).
  assert (Hfield : forall field, In field (annotation_fields content) ->
                                 ~ In (ch " ") field /\ ~ In (ch "-") field).
  { intros field Hin. unfold annotation_fields in Hin. split.
    - intros Hc. pose proof (split_sep_field_chars _ _ _ _ Hin Hc) as H.
      apply filter_In in H as [_ H]. discriminate.
    - pose proof (split_sep_fields (ch "-")
                    (filter (fun x => negb (N.eqb x (ch " ")))
                       (List.last (split_sep (ch "(")
                                     (slice content None (Some (-1)%Z))) [])))
        as H.
      rewrite Forall_forall in H. exact (H field Hin). }
  destruct (annotation_fields content) as [|c [|segment [|third rest]]];
    try discriminate.
  - rewrite item_first. intros H. injection H as <- <-. right. exists c.
    destruct (Hfield c (or_introl eq_refl)) as [Hs Hd].
    split; [reflexivity|]. split; [exact Hs|]. split; [exact Hd|].
    left. split; reflexivity.
  - cbn [length Nat.eqb].
    destruct (find_platform (platforms w) segment None) as [name|] eqn:Ef;
      [|discriminate].
    cbn [local]. intros H. injection H as <- <-. right. exists c.
    destruct (Hfield c (or_introl eq_refl)) as [Hs Hd].
    split; [reflexivity|]. split; [exact Hs|]. split; [exact Hd|].
    right.
    destruct (find_platform_some _ _ _ Ef) as (aliases & Hin & Halias).
    exists name, aliases, segment.
    split; [reflexivity|]. split; [reflexivity|].
    split; [exact Hin|]. split; [exact Halias|].
    unfold canonical_names. apply in_map_iff. exists (name, aliases).
    split; [reflexivity | exact Hin].
Qed.

Lemma platform_is_canonical_or_absent_witness :
  (VStr (lit "Peru") = VNone /\ VStr (lit "android") = VNone) \/
  exists c,
    VStr (lit "Peru") = VStr c /\ ~ In (ch " ") c /\ ~ In (ch "-") c /\
    ((VStr (lit "android") = VNone /\
      annotation_fields (lit "`Al` increased score to 7 in Maze (Peru - :android:)")
      = [c]) \/
     exists name aliases segment,
       VStr (lit "android") = VStr name /\
       annotation_fields (lit "`Al` increased score to 7 in Maze (Peru - :android:)")
       = [c; segment] /\
       In (name, aliases) (platforms initial_world) /\
       In segment aliases /\
       In name (canonical_names (platforms initial_world))).
Proof.
  exact (platform_is_canonical_or_absent
           (lit "`Al` increased score to 7 in Maze (Peru - :android:)")
           initial_world (VStr (lit "Peru")) (VStr (lit "android")) eq_refl).
Defined.

Lemma get_country_and_platform_unmatched_witness :
  result_of (get_country_and_platform
               (lit "`Al` increased score to 7 in Maze "
                ++ ch "(" :: lit "Peru - android" ++ [ch ")"]))
            initial_world
  = Raise UnboundLocalError.
Proof.
  apply (get_country_and_platform_unmatched
           (lit "`Al` increased score to 7 in Maze ") (lit "Peru - android")
           (lit "Peru") (lit "android") initial_world).
  - vm_compute. intuition discriminate.
  - reflexivity.
  - vm_compute. intuition discriminate.
  - vm_compute. intuition discriminate.
  - intros name aliases Hentry Halias.
    cbn [platforms initial_world] in Hentry.
    unfold module_platforms in Hentry. cbn [In] in Hentry.
    repeat (destruct Hentry as [Hentry|Hentry];
            [injection Hentry as <- <-; cbn [In] in Halias;
             intuition discriminate|]).
    exact Hentry.
Defined.

(** ** Level extractor, all cases *)

Lemma unquote_cases (raw : str) :
  raw <> [] ->
  exists name,
    unquote raw = Return name /\
    (name = raw \/ raw = ch "`" :: name ++ [ch "`"]
     \/ (raw = [ch "`"] /\ name = [])).
Proof.
  intros Hne. unfold unquote. destruct raw as [|c raw]; [congruence|].
  rewrite item_first, (item_minus_one (c :: raw) c) by discriminate.
  destruct (N.eqb_spec c (ch "`")) as [->|_];
    [|eexists; split; [reflexivity | left; reflexivity]].
  destruct (N.eqb_spec (last (ch "`" :: raw) (ch "`")) (ch "`")) as [Hlast|_];
    [|eexists; split; [reflexivity | left; reflexivity]].
  destruct raw as [|d raw].
  - exists []. split; [reflexivity|]. right. right. split; reflexivity.
  - destruct (@exists_last _ (d :: raw)) as (body & z & Hbody); [discriminate|].
    rewrite Hbody in *. 
    change (ch "`" :: body ++ [z]) with ((ch "`" :: body) ++ [z]) in Hlast.
    rewrite last_last in Hlast. subst z.
    exists body. split; [rewrite slice_strip; reflexivity|].
    right. left. reflexivity.
Qed.

(** On a non-empty string the result of [unquote] is decided by the first
    and the last character. *)
Lemma unquote_exact (raw : str) :
  raw <> [] ->
  exists name,
    unquote raw = Return name /\
    (raw = ch "`" :: name ++ [ch "`"]
     \/ (raw = [ch "`"] /\ name = [])
     \/ (name = raw /\
         ~ (hd_error raw = Some (ch "`") /\ last raw 0%N = ch "`"))).
Proof.
  intros Hne. unfold unquote. destruct raw as [|c raw]; [congruence|].
  rewrite item_first, (item_minus_one (c :: raw) 0%N) by discriminate.
  destruct (N.eqb_spec c (ch "`")) as [->|Hc].
  - destruct (N.eqb_spec (last (ch "`" :: raw) 0%N) (ch "`")) as [Hlast|Hlast].
    + destruct raw as [|d raw].
      * exists []. split; [reflexivity|]. right. left. split; reflexivity.
      * destruct (@exists_last _ (d :: raw)) as (body & z & Hbody);
          [discriminate|].
        rewrite Hbody in *.
        change (ch "`" :: body ++ [z]) with ((ch "`" :: body) ++ [z]) in Hlast.
        rewrite last_last in Hlast. subst z.
        exists body. split; [rewrite slice_strip; reflexivity|].
        left. reflexivity.
    + eexists. split; [reflexivity|]. right. right.
      split; [reflexivity|]. intros [_ H]. exact (Hlast H).
  - eexists. split; [reflexivity|]. right. right.
    split; [reflexivity|]. intros [H _]. injection H as H. exact (Hc H).
Qed.

Lemma level_loop_stop (stop level_name : list str) (w : world) :
  stop = [] \/ (exists rest stop', stop = (ch "(" :: rest) :: stop') ->
  result_of (level_loop stop level_name) w = Return level_name.
Proof.
  intros [->|(rest & stop' & ->)]; [reflexivity|].
  rewrite level_loop_cons, item_first. cbv beta iota.
  rewrite N.eqb_refl. reflexivity.
Qed.

(** On tokens, [level_loop] keeps the longest prefix of words that do not
    start with an opening parenthesis. *)
Lemma level_loop_span (post level_name : list str) (w : world) :
  Forall (fun t => t <> []) post ->
  exists words stop,
    post = words ++ stop /\
    Forall level_word words /\
    (stop = [] \/ exists rest stop', stop = (ch "(" :: rest) :: stop') /\
    result_of (level_loop post level_name) w = Return (level_name ++ words).
Proof.
  intros H. revert level_name.
  induction H as [|t post Ht _ IH]; intros level_name.
  - exists [], [].
    split; [reflexivity|]. split; [constructor|].
    split; [left; reflexivity | rewrite app_nil_r; reflexivity].
  - destruct t as [|c t]; [congruence|].
    destruct (N.eqb_spec c (ch "(")) as [->|Hc].
    + exists [], ((ch "(" :: t) :: post).
      split; [reflexivity|]. split; [constructor|].
      split; [right; eauto|].
      rewrite app_nil_r. apply level_loop_stop. right. eauto.
    + destruct (IH (level_name ++ [c :: t])) as (words & stop & -> & Hw & Hs & Hr).
      exists ((c :: t) :: words), stop.
      split; [reflexivity|]. split; [|split; [assumption|]].
      * constructor; [|assumption]. split; [discriminate|].
        intros E. apply Hc. injection E as E. exact E.
      * rewrite level_loop_cons, item_first. cbv beta iota.
        apply N.eqb_neq in Hc. rewrite Hc.
        rewrite <- app_assoc in Hr. exact Hr.
Qed.

Lemma first_occurrence_unique (x : str) (pre pre' post post' : list str) :
  pre ++ x :: post = pre' ++ x :: post' ->
  ~ In x pre -> ~ In x pre' -> pre = pre' /\ post = post'.
Proof.
  revert pre'. induction pre as [|y pre IH]; intros [|y' pre'] H Hn Hn'.
  - injection H as ->. split; reflexivity.
  - injection H as -> _. exfalso. apply Hn'. left. reflexivity.
  - injection H as -> _. exfalso. apply Hn. left. reflexivity.
  - injection H as -> H.
    destruct (IH pre' H) as [-> ->]; [cbn in *; tauto | cbn in *; tauto|].
    split; reflexivity.
Qed.

Lemma join_not_nil (sep : str) (l : list str) :
  l <> [] -> Forall (fun t => t <> []) l -> join sep l <> [].
Proof.
  intros Hne H. destruct l as [|t rest]; [congruence|].
  inversion H as [|? ? Ht _]; subst.
  destruct t as [|c t]; [congruence|].
  destruct rest; discriminate.
Qed.

(** X9.  [get_level] returns the words that follow the first [in], up to
    the first token that starts with an opening parenthesis or to the end,
    joined by single spaces (every run of white space inside the name
    becomes one space): without its first and last character when the joined
    name starts and ends with a back-quote (the empty name for a lone
    back-quote), and unchanged in every other case. *)
Theorem get_level_joins_words (line : str) (w : world)
        (pre words stop : list str) :
  split_ws line = pre ++ lit "in" :: words ++ stop ->
  ~ In (lit "in") pre ->
  words <> [] ->
  Forall (fun wd => hd_error wd <> Some (ch "(")) words ->
  (stop = [] \/ exists rest stop', stop = (ch "(" :: rest) :: stop') ->
  exists level,
    result_of (get_level line) w = Return level /\
    (join (lit " ") words = ch "`" :: level ++ [ch "`"]
     \/ (join (lit " ") words = [ch "`"] /\ level = [])
     \/ (level = join (lit " ") words /\
         ~ (hd_error (join (lit " ") words) = Some (ch "`") /\
            last (join (lit " ") words) 0%N = ch "`"))).
Proof.
  intros Hsplit Hpre Hne Hhd Hstop.
  assert (Htok : Forall token words).
  { pose proof (split_ws_tokens line) as H. rewrite Hsplit in H.
    apply Forall_app in H as [_ H]. inversion H as [|? ? _ H']; subst.
    apply Forall_app in H'. tauto. }
  assert (Hwords : Forall level_word words).
  { rewrite Forall_forall in *. intros wd Hin. split.
    - exact (proj1 (Htok wd Hin)).
    - exact (Hhd wd Hin). }
  rewrite (get_level_after_in line w pre (words ++ stop) Hsplit Hpre).
  rewrite level_loop_collect by assumption.
  rewrite level_loop_stop by assumption. cbn [app].
  destruct (unquote_exact (join (lit " ") words)) as (level & Hu & Hcases).
  { apply join_not_nil; [assumption|].
    eapply Forall_impl; [|exact Htok]. intros t Ht. exact (proj1 Ht). }
  exists level. split; [exact Hu | exact Hcases].
Qed.

Lemma get_level_joins_words_witness :
  exists level,
    result_of (get_level (lit "Bob  got 7 in  `Lost   in Space` (hard) (Peru)"))
              initial_world = Return level /\
    (join (lit " ") [lit "`Lost"; lit "in"; lit "Space`"]
     = ch "`" :: level ++ [ch "`"]
     \/ (join (lit " ") [lit "`Lost"; lit "in"; lit "Space`"] = [ch "`"]
         /\ level = [])
     \/ (level = join (lit " ") [lit "`Lost"; lit "in"; lit "Space`"] /\
         ~ (hd_error (join (lit " ") [lit "`Lost"; lit "in"; lit "Space`"])
            = Some (ch "`") /\
            last (join (lit " ") [lit "`Lost"; lit "in"; lit "Space`"]) 0%N
            = ch "`"))).
Proof.
  apply (get_level_joins_words
           (lit "Bob  got 7 in  `Lost   in Space` (hard) (Peru)") initial_world
           [lit "Bob"; lit "got"; lit "7"]
           [lit "`Lost"; lit "in"; lit "Space`"]
           [lit "(hard)"; lit "(Peru)"]).
  - reflexivity.
  - vm_compute. intuition discriminate.
  - discriminate.
  - repeat constructor; discriminate.
  - right. exists (lit "hard)"), [lit "(Peru)"]. reflexivity.
Defined.

(** X10.  The failures of [get_level] are exactly these: [ValueError]
    when no token is [in], and [IndexError] when no word of a level name
    follows the first [in]; in every other case it returns. *)
Theorem get_level_fails_iff (line : str) (w : world) :
  (result_of (get_level line) w = Raise ValueError <->
   ~ In (lit "in") (split_ws line)) /\
  (result_of (get_level line) w = Raise IndexError <-> no_level_words line) /\
  (forall e, result_of (get_level line) w = Raise e ->
             e = ValueError \/ e = IndexError).
Proof.
  destruct (find_index (lit "in") (split_ws line)) as [i|] eqn:Efind.
  - destruct (find_index_some _ _ _ Efind) as (pre & post & Hsplit & _ & Hpre).
    assert (Hin : In (lit "in") (split_ws line))
      by (rewrite Hsplit; apply in_or_app; right; left; reflexivity).
    rewrite (get_level_after_in line w pre post Hsplit Hpre).
    assert (Hpost : Forall (fun t => t <> []) post).
    { pose proof (split_ws_tokens line) as H. rewrite Hsplit in H.
      apply Forall_app in H as [_ H]. inversion H as [|? ? _ H']; subst.
      eapply Forall_impl; [|exact H']. intros t Ht. exact (proj1 Ht). }
    destruct (level_loop_span post [] initial_world Hpost)
      as (words & stop & -> & Hwords & Hstop & ->). cbn [app].
    destruct words as [|wd words].
    + cbn [app] in *. change (unquote (join (lit " ") [])) with (@Raise str IndexError).
      split; [split; [discriminate | tauto]|]. split.
      * split; [|reflexivity]. intros _. exists pre, stop. tauto.
      * intros e H. injection H as <-. right. reflexivity.
    + destruct (unquote_cases (join (lit " ") (wd :: words))) as (level & -> & _).
      { apply join_not_nil; [discriminate|].
        eapply Forall_impl; [|exact Hwords]. intros t Ht. exact (proj1 Ht). }
      split; [split; [discriminate | tauto]|]. split; [|discriminate].
      split; [discriminate|].
      intros (pre' & post' & Hsplit' & Hpre' & Hpost').
      rewrite Hsplit in Hsplit'.
      destruct (first_occurrence_unique _ _ _ _ _ Hsplit' Hpre Hpre') as [_ <-].
      inversion Hwords as [|? ? [_ Hhd] _]; subst.
      destruct Hpost' as [E|(rest & stop' & E)]; [discriminate|].
      injection E as -> _. exfalso. apply Hhd. reflexivity.
  - rewrite get_level_result. unfold index_of. rewrite Efind.
    apply find_index_none in Efind.
    split; [split; [intros _; exact Efind | reflexivity]|]. split.
    + split; [discriminate|].
      intros (pre & post & Hsplit & _). exfalso. apply Efind.
      rewrite Hsplit. apply in_or_app. right. left. reflexivity.
    + intros e H. injection H as <-. left. reflexivity.
Qed.

(** ** Content parser *)

Lemma last_line_after_break (before line : str) :
  ~ In 10%N line -> last_line (before ++ 10%N :: line) = line.
Proof. intros H. unfold last_line. apply split_sep_last. exact H. Qed.

Lemma last_line_single (line : str) : ~ In 10%N line -> last_line line = line.
Proof.
  intros H. unfold last_line. rewrite split_sep_no_sep by exact H. reflexivity.
Qed.

(** X11.  [parse_content] reads the last line only: whatever precedes the
    last line break does not change the outcome; and a content that ends
    with a line break has an empty last line and fails with
    [IndexError]. *)
Theorem parse_content_reads_last_line (before line : str) (w : world) :
  ~ In 10%N line ->
  result_of (parse_content (before ++ 10%N :: line)) w
  = result_of (parse_content line) w /\
  result_of (parse_content (before ++ [10%N])) w = Raise IndexError.
Proof.
  intros Hline. split.
  - rewrite !parse_content_result, !item_last_line.
    rewrite (last_line_after_break before line Hline),
      (last_line_single line Hline). reflexivity.
  - rewrite parse_content_result, item_last_line.
    pose proof (last_line_after_break before [] (fun H => H)) as Hlast.
    set (l := last_line _).
    assert (El : l = []) by exact Hlast.
    rewrite El, get_usernames_result. reflexivity.
Qed.

Lemma parse_content_reads_last_line_witness :
  result_of (parse_content
               (lit "New record! (era 1) `in` and x" ++ 10%N
                    :: lit "`Al` beat `Bo` 7 in Maze")) initial_world
  = result_of (parse_content (lit "`Al` beat `Bo` 7 in Maze")) initial_world /\
  result_of (parse_content (lit "New record! (era 1) `in` and x" ++ [10%N]))
            initial_world
  = Raise IndexError.
Proof.
  apply (parse_content_reads_last_line
           (lit "New record! (era 1) `in` and x")
           (lit "`Al` beat `Bo` 7 in Maze") initial_world).
  vm_compute. intuition discriminate.
Defined.

Lemma get_country_and_platform_pairs (content : str) (w : world)
      (country platform : value) :
  result_of (get_country_and_platform content) w = Return (country, platform) ->
  (country = VNone /\ platform = VNone) \/
  (exists c, country = VStr c /\
             (platform = VNone \/ exists name, platform = VStr name)).
Proof.
  rewrite get_country_and_platform_result.
  destruct (item content (-1)) as [last|]; [|discriminate].
  destruct (negb (N.eqb last (ch ")")));
    [intros H; injection H as <- <-; left; split; reflexivity|].
  destruct (item (split_sep (ch "(") (slice content None (Some (-1)%Z))) (-1))
    as [data|]; [|discriminate].
  cbv zeta.
  destruct (Nat.eqb _ 1).
  - destruct (item _ 0) as [c|]; [|discriminate].
    intros H. injection H as <- <-. right. exists c.
    split; [reflexivity | left; reflexivity].
  - destruct (split_sep _ _) as [|c [|p [|]]]; try discriminate.
    destruct (local _) as [name|]; [|discriminate].
    intros H. injection H as <- <-. right. exists c.
    split; [reflexivity | right; exists name; reflexivity].
Qed.

(** X12.  Every record [parse_content] returns has the eight fields
    [era, mode, player1, player2, level, score, country, platform] with:
    era 1 or 2, and 1 exactly when the last line contains [(era 1)];
    [player1] a string without white space and [player2] absent or such a
    string; [score] a token of the last line (never empty, no white space);
    country and platform absent unless mode is 1; and a platform only
    together with a country. *)
Theorem parse_content_record_invariants (content : str) (w : world)
        (record : list value) :
  result_of (parse_content content) w = Return record ->
  exists era mode player1 player2 level score country platform,
    record = [VInt era; VInt mode; VStr player1; player2;
              VStr level; VStr score; country; platform] /\
    (era = 1 \/ era = 2)%Z /\
    (era = 1%Z <-> contains (lit "(era 1)") (last_line content) = true) /\
    word player1 /\
    (player2 = VNone \/ exists name, player2 = VStr name /\ word name) /\
    token score /\ In score (split_ws (last_line content)) /\
    (mode <> 1%Z -> country = VNone /\ platform = VNone) /\
    (platform <> VNone -> country <> VNone).
Proof.
  intros Hrecord.
  destruct (parse_content_shape content w record Hrecord)
    as (era & mode & player1 & player2 & level & score & country & platform
        & -> & Hu & Hl & Hs & Hmode).
  exists era, mode, player1, player2, level, score, country, platform.
  split; [reflexivity|].
  set (line := last_line content) in *.
  (* era and names *)
  assert (Hnames :
            (era = 1 \/ era = 2)%Z /\
            (era = 1%Z <-> contains (lit "(era 1)") line = true) /\
            word player1 /\
            (player2 = VNone \/ exists name, player2 = VStr name /\ word name)).
  { rewrite get_usernames_result_remaining in Hu.
    pose proof (remaining_tokens_are_tokens line) as Htok.
    rewrite Forall_forall in Htok.
    destruct (item (remaining_tokens line) 0) as [raw0|] eqn:E0; [|discriminate].
    destruct (item (remaining_tokens line) 2) as [raw2|] eqn:E2; [|discriminate].
    destruct (unquote raw0) as [p1|] eqn:U0; [|discriminate].
    destruct (unquote raw2) as [p2|] eqn:U2; [|discriminate].
    destruct (item (remaining_tokens line) 1) as [token1|]; [|discriminate].
    injection Hu as <- _ <- <-.
    pose proof (unquote_word raw0 p1 (proj2 (Htok _ (item_In _ _ _ E0))) U0).
    pose proof (unquote_word raw2 p2 (proj2 (Htok _ (item_In _ _ _ E2))) U2).
    destruct (contains (lit "(era 1)") line);
      (split; [auto|]); (split; [split; congruence|]); (split; [assumption|]);
      destruct (str_eqb token1 (lit "and")); eauto. }
  destruct Hnames as (Hera & Heraiff & Hp1 & Hp2).
  (* score *)
  assert (Hscore : In score (split_ws line)).
  { rewrite get_score_result in Hs.
    destruct (index_of (split_ws line) (lit "in")) as [i|]; [|discriminate].
    exact (item_In _ _ _ Hs). }
  pose proof (split_ws_tokens line) as Htokens. rewrite Forall_forall in Htokens.
  (* country and platform *)
  assert (Hpair : platform <> VNone -> country <> VNone).
  { rewrite parse_content_result, item_last_line in Hrecord. fold line in Hrecord.
    rewrite Hu in Hrecord.
    destruct (value_eqb (VInt mode) (VInt 1)).
    - destruct (result_of (get_country_and_platform line) w)
        as [[country' platform']|] eqn:Ecp; [|discriminate].
      rewrite Hl, Hs in Hrecord. injection Hrecord as <- <-.
      destruct (get_country_and_platform_pairs line w _ _ Ecp)
        as [[-> ->]|(c & -> & _)]; [congruence | discriminate].
    - rewrite Hl, Hs in Hrecord. injection Hrecord as <- <-. congruence. }
  repeat split; try assumption; try (apply Heraiff); auto.
  - exact (proj1 (Htokens score Hscore)).
  - exact (proj2 (Htokens score Hscore)).
  - exact (proj1 (Hmode H)).
  - exact (proj2 (Hmode H)).
Qed.

Lemma parse_content_record_invariants_witness :
  exists era mode player1 player2 level score country platform,
    [VInt 1; VInt 1; VStr (lit "Al"); VNone; VStr (lit "Lost Maze");
     VStr (lit "7"); VStr (lit "Peru"); VStr (lit "web")]
    = [VInt era; VInt mode; VStr player1; player2;
       VStr level; VStr score; country; platform] /\
    (era = 1 \/ era = 2)%Z /\
    (era = 1%Z <->
     contains (lit "(era 1)")
              (last_line (lit "(era 1) `Al` beat Bo 7 in Lost Maze (Peru - web)"))
     = true) /\
    word player1 /\
    (player2 = VNone \/ exists name, player2 = VStr name /\ word name) /\
    token score /\
    In score (split_ws (last_line
                          (lit "(era 1) `Al` beat Bo 7 in Lost Maze (Peru - web)"))) /\
    (mode <> 1%Z -> country = VNone /\ platform = VNone) /\
    (platform <> VNone -> country <> VNone).
Proof.
  exact (parse_content_record_invariants
           (lit "(era 1) `Al` beat Bo 7 in Lost Maze (Peru - web)")
           initial_world
           [VInt 1; VInt 1; VStr (lit "Al"); VNone; VStr (lit "Lost Maze");
            VStr (lit "7"); VStr (lit "Peru"); VStr (lit "web")]
           eq_refl).
Defined.

(** ** Reading the input table *)

Lemma get_data_loop_six (reader results : list (list str)) (w : world) :
  Forall (fun row => length row = 6) reader ->
  get_data_loop reader results w
  = (Return (results ++ map kept_columns reader), w).
Proof.
  intros H. revert results.
  induction H as [|row reader Hrow _ IH]; intros results.
  - cbn. rewrite app_nil_r. reflexivity.
  - destruct row as [|c0 [|c1 [|time [|content [|attachments [|reactions [|]]]]]]];
      try discriminate.
    cbn [get_data_loop map kept_columns]. rewrite slice_from_two. cbn [skipn].
    rewrite IH, <- app_assoc. reflexivity.
Qed.

Lemma get_data_loop_other (reader results : list (list str)) (w : world) :
  Exists (fun row => length row <> 6) reader ->
  get_data_loop reader results w = (Raise ValueError, w).
Proof.
  intros H. revert results.
  induction reader as [|row reader IH]; intros results; [inversion H|].
  cbn [get_data_loop]. rewrite slice_from_two.
  destruct row as [|c0 [|c1 [|time [|content [|attachments [|reactions [|]]]]]]];
    try reflexivity.
  cbn [skipn]. apply IH.
  inversion H as [? ? Hrow|? ? Hrest]; subst; [|exact Hrest].
  exfalso. apply Hrow. reflexivity.
Qed.

Lemma get_data_run (file : str) (reader : list (list str))
      (p : list (str * list str)) (j : list log_record) :
  get_data file reader (with_journal p j)
  = (match result_of (get_data_loop reader []) initial_world with
     | Return results => Return (tl results)
     | Raise e => Raise e
     end,
     with_journal p (j ++ [{| lvl := DEBUG;
                              msg := Fmt "Getting data from <y>{}</>"
                                         [VStr file] |}])).
Proof.
  unfold get_data. run_step. cbn [with_journal platforms journal].
  fold_worlds p.
  destruct (Forall_Exists_dec (fun row : list str => length row = 6)
              (fun row => Nat.eq_dec (length row) 6) reader) as [Hall|Hsome].
  - rewrite !get_data_loop_six by assumption. cbn [fst].
    rewrite slice_from_one. reflexivity.
  - rewrite !get_data_loop_other by assumption. reflexivity.
Qed.

Lemma get_data_needs_six_columns_aux (file : str) (reader : list (list str))
      (w : world) :
  (Forall (fun row => length row = 6) reader ->
   result_of (get_data file reader) w = Return (map kept_columns (tl reader))) /\
  (Exists (fun row => length row <> 6) reader ->
   result_of (get_data file reader) w = Raise ValueError).
Proof.
  assert (Hrun : result_of (get_data file reader) w
                 = match result_of (get_data_loop reader []) initial_world with
                   | Return results => Return (tl results)
                   | Raise e => Raise e
                   end).
  { unfold result_of at 1. rewrite (world_eta w), get_data_run. reflexivity. }
  rewrite Hrun. unfold result_of. split.
  - intros Hall. rewrite get_data_loop_six by assumption. cbn [fst app].
    destruct reader; reflexivity.
  - intros Hsome. rewrite get_data_loop_other by assumption. reflexivity.
Qed.



(** ** The whole run *)

Lemma main_on_file_run (file : str) (reader : list (list str))
      (p : list (str * list str)) (j : list log_record) :
  exists l,
    main_on_file file reader (with_journal p j)
    = (match result_of (get_data file reader) (with_journal p j) with
       | Return data => Return (parsed_rows (with_journal p j) data)
       | Raise e => Raise e
       end,
       with_journal p (j ++ l)) /\
    warnings_of l
    = match result_of (get_data file reader) (with_journal p j) with
      | Return data => failures (with_journal p j) data
      | Raise _ => []
      end /\
    rows_started l
    = match result_of (get_data file reader) (with_journal p j) with
      | Return data => map (fun row => VList (map VStr row)) data
      | Raise _ => []
      end.
Proof.
  unfold main_on_file, bind, result_of. rewrite get_data_run. cbn [fst].
  destruct (result_of (get_data_loop reader []) initial_world) as [results|e].
  - cbv zeta.
    destruct (main_loop_spec (tl results) [] p j
                (j ++ [{| lvl := DEBUG;
                          msg := Fmt "Getting data from <y>{}</>" [VStr file] |}]))
      as (l & Hloop & Hw & Hr).
    exists ([{| lvl := DEBUG;
                msg := Fmt "Getting data from <y>{}</>" [VStr file] |}] ++ l).
    rewrite Hloop, <- app_assoc. split; [reflexivity|].
    rewrite warnings_of_app, rows_started_app, Hw, Hr. split; reflexivity.
  - exists [{| lvl := DEBUG;
               msg := Fmt "Getting data from <y>{}</>" [VStr file] |}].
    split; [reflexivity | split; reflexivity].
Qed.

(** X14.  The whole run.  When every row of the table has six columns,
    [main] hands to the writer the records of the rows after the header
    that parse, in order, and reports one warning per other row: the header
    row is never parsed.  When one row of the table (the header included)
    has another number of columns, the [ValueError] of [get_data] is not
    caught: no row is parsed, no warning is written and nothing is handed to
    the writer. *)
Theorem main_on_file_spec (file : str) (reader : list (list str)) (w : world) :
  (Forall (fun row => length row = 6) reader ->
   result_of (main_on_file file reader) w
   = Return (parsed_rows w (map kept_columns (tl reader))) /\
   warnings_of (journal (world_after (main_on_file file reader) w))
   = warnings_of (journal w) ++ failures w (map kept_columns (tl reader)) /\
   rows_started (journal (world_after (main_on_file file reader) w))
   = rows_started (journal w)
     ++ map (fun row => VList (map VStr row)) (map kept_columns (tl reader))) /\
  (Exists (fun row => length row <> 6) reader ->
   result_of (main_on_file file reader) w = Raise ValueError /\
   warnings_of (journal (world_after (main_on_file file reader) w))
   = warnings_of (journal w) /\
   rows_started (journal (world_after (main_on_file file reader) w))
   = rows_started (journal w)).
Proof.
  destruct (main_on_file_run file reader (platforms w) (journal w))
    as (l & Hrun & Hw & Hr).
  rewrite <- world_eta in Hrun, Hw, Hr.
  assert (Hres : result_of (main_on_file file reader) w
                 = match result_of (get_data file reader) w with
                   | Return data => Return (parsed_rows w data)
                   | Raise e => Raise e
                   end)
    by (unfold result_of at 1; rewrite Hrun; reflexivity).
  assert (Hafter : journal (world_after (main_on_file file reader) w)
                   = journal w ++ l)
    by (unfold world_after; rewrite Hrun; reflexivity).
  rewrite Hres, Hafter, warnings_of_app, rows_started_app, Hw, Hr.
  destruct (get_data_needs_six_columns_aux file reader w) as [Hsix Hother].
  split.
  - intros Hall. rewrite (Hsix Hall). repeat split.
  - intros Hsome. rewrite (Hother Hsome), !app_nil_r. repeat split.
Qed.

Lemma main_on_file_spec_witness :
  result_of (main_on_file (lit "feed.csv") example_table) initial_world
  = Return (parsed_rows initial_world (map kept_columns (tl example_table))) /\
  warnings_of (journal (world_after (main_on_file (lit "feed.csv") example_table)
                                    initial_world))
  = warnings_of (journal initial_world)
    ++ failures initial_world (map kept_columns (tl example_table)) /\
  rows_started (journal (world_after (main_on_file (lit "feed.csv") example_table)
                                     initial_world))
  = rows_started (journal initial_world)
    ++ map (fun row => VList (map VStr row))
           (map kept_columns (tl example_table)).
Proof.
  apply (proj1 (main_on_file_spec (lit "feed.csv") example_table initial_world)).
  repeat constructor.
Defined.

(** ** The one-player sentences of era 2 *)

Lemma one_player_sentence_tokens (A score : str) (words : list str)
      (country platform : str) :
  words <> [] ->
  one_player_sentence A score (join (lit " ") words) country platform
  = join (lit " ") (one_player_tokens A score words country platform).
Proof.
  intros H. unfold one_player_tokens.
  rewrite join_app by (discriminate || (intros E; apply app_eq_nil in E; destruct E; discriminate)).
  rewrite join_app by (discriminate || apply quote_words_not_nil; assumption).
  rewrite join_quote_words by assumption.
  generalize (join (lit " ") words). intros level.
  unfold one_player_sentence. cbn [join].
  repeat (rewrite <- !app_assoc; cbn [app lit map list_ascii_of_string]).
  reflexivity.
Qed.

Lemma one_player_sentence_annotation (A score level country platform : str) :
  one_player_sentence A score level country platform
  = (lit "`" ++ A ++ lit "` increased score to " ++ score ++ lit " in `"
     ++ level ++ lit "` ")
    ++ ch "(" :: (country ++ lit " - " ++ platform) ++ [ch ")"].
Proof.
  unfold one_player_sentence.
  repeat (rewrite <- !app_assoc; cbn [app lit map list_ascii_of_string]).
  reflexivity.
Qed.

Lemma filter_no_space (s : str) :
  ~ In (ch " ") s ->
  @filter char (fun x : N => negb (N.eqb x (ch " "))) s = s.
Proof.
  induction s as [|c s IH]; [reflexivity|]. intros H. cbn [filter].
  destruct (N.eqb_spec c (ch " ")) as [->|_];
    [exfalso; apply H; left; reflexivity|].
  cbn [negb]. rewrite IH; [reflexivity|]. intros Hin. apply H. right. exact Hin.
Qed.

Lemma one_player_tokens_are_tokens (A score : str) (words : list str)
      (country platform : str) :
  word A -> token score -> Forall token words -> word country ->
  token platform ->
  Forall token (one_player_tokens A score words country platform).
Proof.
  intros HA Hscore Hwords Hcountry [_ Hplatform]. unfold one_player_tokens.
  apply Forall_app; split.
  - repeat match goal with
           | |- Forall _ (_ :: _) => constructor
           | |- Forall _ [] => constructor
           end;
      try assumption;
      try (apply token_cons; [reflexivity|]; apply word_app;
           [assumption | reflexivity]);
      split; (discriminate || reflexivity).
  - apply Forall_app; split; [apply quote_words_tokens; assumption|].
    constructor; [apply token_cons; [reflexivity | assumption]|].
    constructor; [split; [discriminate | reflexivity]|].
    constructor; [|constructor].
    split; [destruct platform; discriminate|].
    apply word_app; [assumption | reflexivity].
Qed.

(** X15.  For every well-formed one-player sentence of era 2,
    [`A` increased score to SCORE in `LEVEL` (COUNTRY - PLATFORM)] -- the
    name and the country without white space, the country without dash and
    parenthesis, the score a token other than [in], the level name one or
    more words separated by single spaces of which none but the first starts
    with an opening parenthesis, the platform an alias listed in the module's
    table, and neither [(era 1)] nor [(2 players mode)] in the sentence --
    [parse_content] returns era 2, mode 1, the name, no second player, the
    level name, the score, the country and the canonical name of the
    platform. *)
Theorem one_player_sentence_parses
        (A score : str) (words : list str) (country platform name : str)
        (aliases : list str) (w : world) :
  platforms w = module_platforms ->
  word A ->
  token score -> score <> lit "in" ->
  words <> [] -> Forall token words ->
  Forall (fun wd => hd_error wd <> Some (ch "(")) (tl words) ->
  word country -> ~ In (ch "-") country -> ~ In (ch "(") country ->
  In (name, aliases) module_platforms -> In platform aliases ->
  contains (lit "(era 1)")
           (one_player_sentence A score (join (lit " ") words) country platform)
  = false ->
  contains (lit "(2 players mode)")
           (one_player_sentence A score (join (lit " ") words) country platform)
  = false ->
  result_of (parse_content
               (one_player_sentence A score (join (lit " ") words)
                                    country platform)) w
  = Return [VInt 2; VInt 1; VStr A; VNone;
            VStr (join (lit " ") words); VStr score;
            VStr country; VStr name].
Proof.
  intros Hw HA Hscore Hin Hne Hwords Hhd Hcountry Hdash Hparen Hentry Halias
         Hera Hmarker.
  destruct (find_platform_listed name aliases platform Hentry Halias)
    as (Hfind & Hpdash & Hpparen & Hptoken).
  assert (Hcp : result_of (get_country_and_platform
                             (one_player_sentence A score (join (lit " ") words)
                                                  country platform)) w
                = Return (VStr country, VStr name)).
  { rewrite one_player_sentence_annotation.
    rewrite (get_country_and_platform_annotation _ _ country platform w).
    - rewrite Hw, Hfind. reflexivity.
    - intros H. apply in_app_or in H as [H|H]; [tauto|].
      apply in_app_or in H as [H|H]; [|tauto].
      cbn in H. intuition discriminate.
    - rewrite !filter_app, (filter_no_space country), (filter_no_space platform).
      + reflexivity.
      + exact (token_no_space platform (ch " ") Hptoken eq_refl).
      + intros H. unfold word in Hcountry. rewrite forallb_forall in Hcountry.
        specialize (Hcountry _ H). discriminate.
    - assumption.
    - assumption. }
  pose proof (one_player_tokens_are_tokens A score words country platform
                HA Hscore Hwords Hcountry Hptoken) as Htoks.
  rewrite one_player_sentence_tokens in * by assumption.
  set (line := join (lit " ") (one_player_tokens A score words country platform))
    in *.
  assert (Hsplit : split_ws line = one_player_tokens A score words country platform)
    by (apply split_ws_join; assumption).
  assert (Husers : result_of (get_usernames line) w
                   = Return [VInt 2; VInt 1; VStr A; VNone]).
  { rewrite get_usernames_result, Hera, Hmarker. cbv zeta. rewrite Hsplit.
    unfold one_player_tokens. cbn [app].
    rewrite item_first, item_second, item_third, unquote_quoted.
    reflexivity. }
  assert (Hlevel : result_of (get_level line) w
                   = Return (join (lit " ") words)).
  { rewrite (get_level_after_in line w
               [ch "`" :: A ++ [ch "`"]; lit "increased"; lit "score";
                lit "to"; score]
               (quote_words words
                ++ [ch "(" :: country; lit "-"; platform ++ [ch ")"]])).
    - rewrite level_loop_collect
        by (apply quote_words_level_words; assumption).
      rewrite level_loop_stop by (right; eauto). cbn [app].
      rewrite join_quote_words by assumption.
      apply unquote_quoted.
    - exact Hsplit.
    - cbn [In]. intros [H|[H|[H|[H|[H|[]]]]]];
        try discriminate. apply Hin. exact H. }
  assert (Hsc : result_of (get_score line) w = Return score).
  { apply (get_score_before_in line w
             [ch "`" :: A ++ [ch "`"]; lit "increased"; lit "score"; lit "to"]
             score
             (quote_words words
              ++ [ch "(" :: country; lit "-"; platform ++ [ch ")"]])).
    - exact Hsplit.
    - cbn [In app]. intros [H|[H|[H|[H|[H|[]]]]]];
        try discriminate. apply Hin. exact H. }
  assert (Hlast : last_line line = line)
    by (apply last_line_join; assumption).
  rewrite parse_content_result, item_last_line, Hlast, Husers.
  cbn [value_eqb Z.eqb]. rewrite Hcp, Hlevel, Hsc. reflexivity.
Qed.

Lemma one_player_sentence_parses_witness :
  result_of (parse_content
               (one_player_sentence (lit "Alice") (lit "7")
                  (join (lit " ") [lit "Lost"; lit "Maze"])
                  (lit "France") [0x1F310%N])) initial_world
  = Return [VInt 2; VInt 1; VStr (lit "Alice"); VNone;
            VStr (join (lit " ") [lit "Lost"; lit "Maze"]); VStr (lit "7");
            VStr (lit "France"); VStr (lit "web")].
Proof.
  apply (one_player_sentence_parses
           (lit "Alice") (lit "7") [lit "Lost"; lit "Maze"] (lit "France")
           [0x1F310%N] (lit "web") [[0x1F310%N]; lit "web"] initial_world).
  - reflexivity.
  - reflexivity.
  - split; [discriminate | reflexivity].
  - discriminate.
  - discriminate.
  - repeat constructor; discriminate.
  - repeat constructor. discriminate.
  - reflexivity.
  - vm_compute. intuition discriminate.
  - vm_compute. intuition discriminate.
  - right. right. right. left. reflexivity.
  - left. reflexivity.
  - reflexivity.
  - reflexivity.
Defined.

(** ** Player names *)

(** X16.  With at least three tokens after the era handling,
    [get_usernames] returns: the era; mode 2 when the second token is [and]
    or the content carries [(2 players mode)], else 1; the first token
    without its back-quotes; and the third token without its back-quotes
    when the second token is [and], else no second player.  The third token
    is read and unquoted in both cases. *)
Theorem get_usernames_reads_three_tokens (content : str) (w : world)
        (t0 t1 t2 : str) (rest : list str) :
  remaining_tokens content = t0 :: t1 :: t2 :: rest ->
  exists player1 player2,
    unquote t0 = Return player1 /\
    unquote t2 = Return player2 /\
    result_of (get_usernames content) w
    = Return [VInt (if contains (lit "(era 1)") content then 1 else 2);
              VInt (if str_eqb t1 (lit "and")
                       || contains (lit "(2 players mode)") content
                    then 2 else 1);
              VStr player1;
              if str_eqb t1 (lit "and") then VStr player2 else VNone].
Proof.
  intros Htok.
  pose proof (remaining_tokens_are_tokens content) as H. rewrite Htok in H.
  inversion H as [|? ? [Hne0 _] H']; subst.
  inversion H' as [|? ? _ H'']; subst.
  inversion H'' as [|? ? [Hne2 _] _]; subst.
  destruct (unquote_returns t0 Hne0) as (player1 & Hu0 & _).
  destruct (unquote_returns t2 Hne2) as (player2 & Hu2 & _).
  exists player1, player2. split; [exact Hu0|]. split; [exact Hu2|].
  rewrite get_usernames_result_remaining, Htok.
  rewrite item_first, item_second, item_third, Hu0, Hu2.
  destruct (str_eqb t1 (lit "and"));
    destruct (contains (lit "(2 players mode)") content); reflexivity.
Qed.

Lemma get_usernames_reads_three_tokens_witness :
  exists player1 player2,
    unquote (lit "`Al`") = Return player1 /\
    unquote (lit "`score") = Return player2 /\
    result_of (get_usernames (lit "(era 1) `Al` increased `score to 7"))
              initial_world
    = Return [VInt (if contains (lit "(era 1)")
                                (lit "(era 1) `Al` increased `score to 7")
                    then 1 else 2);
              VInt (if str_eqb (lit "increased") (lit "and")
                       || contains (lit "(2 players mode)")
                                   (lit "(era 1) `Al` increased `score to 7")
                    then 2 else 1);
              VStr player1;
              if str_eqb (lit "increased") (lit "and")
              then VStr player2 else VNone].
Proof.
  exact (get_usernames_reads_three_tokens
           (lit "(era 1) `Al` increased `score to 7") initial_world
           (lit "`Al`") (lit "increased") (lit "`score")
           [lit "to"; lit "7"] eq_refl).
Defined.

Lemma get_usernames_needs_three_tokens_witness :
  result_of (get_usernames (lit "(era 1) `Al` won")) initial_world
  = Raise IndexError.
Proof.
  apply (proj1 (proj1 (get_usernames_needs_three_tokens
                         (lit "(era 1) `Al` won") initial_world))).
  vm_compute. lia.
Defined.

Lemma get_level_fails_iff_witness :
  result_of (get_level (lit "Score bot restarted")) initial_world
  = Raise ValueError.
Proof.
  apply (proj2 (proj1 (get_level_fails_iff (lit "Score bot restarted")
                                           initial_world))).
  vm_compute. intuition discriminate.
Defined.
